(** * Vocabulator: the word-frequency pipeline of [vocabulator.py]

    A shallow embedding of [extract_book_words] and of the library
    calls it is built from, followed by the properties of the
    pipeline.

    Python strings are sequences of Unicode code points, the
    Streamlit calls are a log of events, and the external
    collaborators (PyMuPDF, spaCy, pyspellchecker) are the fields of
    a record the pipeline is run against. *)

From Stdlib Require Import NArith String Ascii.
From stdpp Require Import list sorting gmap strings.

Local Open Scope N_scope.

(** ** Text: code points and their classes *)

Abbreviation char := N (only parsing).
Abbreviation str := (list N) (only parsing).

(** [str.isspace] on one code point, which is also what [\s] matches
    in a [str] pattern and what [str.strip()] removes: CPython's
    [Py_UNICODE_ISSPACE]. *)
Definition isspace (c : char) : bool :=
  (9 <=? c) && (c <=? 13) || (28 <=? c) && (c <=? 32)
  || (c =? 133) || (c =? 160) || (c =? 5760)
  || (8192 <=? c) && (c <=? 8202)
  || (c =? 8232) || (c =? 8233) || (c =? 8239) || (c =? 8287)
  || (c =? 12288).

(** The part of the Unicode character database the program reads:
    [str.isalnum] and [str.isalpha] on one code point, and
    [str.lower]. *)
Class Unicode := {
  isalnum : char → bool;
  isalpha : char → bool;
  lower : str → str;
}.

(** Python's tables on the ASCII range, together with U+0130 (capital
    I with dot above, a letter whose lower case is [i] followed by the
    combining dot U+0307, which is a mark and not a letter). Code
    points outside this range are classed as neither letter nor
    digit and are left alone by [lower]. *)
Definition sample_isalpha (c : char) : bool :=
  (65 <=? c) && (c <=? 90) || (97 <=? c) && (c <=? 122) || (c =? 304).

Definition sample_lower_char (c : char) : str :=
  if (65 <=? c) && (c <=? 90) then [c + 32]
  else if c =? 304 then [105; 775]
  else [c].

Definition sample_unicode : Unicode := {|
  isalnum c := sample_isalpha c || (48 <=? c) && (c <=? 57);
  isalpha := sample_isalpha;
  lower s := s ≫= sample_lower_char;
|}.

Section Text.
Context `{Unicode}.

(** [s.isalpha()]: non-empty and every code point a letter. *)
Definition str_isalpha (s : str) : bool :=
  match s with [] => false | _ => forallb isalpha s end.

(** [\w] in a [str] pattern. *)
Definition is_word (c : char) : bool := isalnum c || (c =? 95).

(** The complement of the class [[^\w\s-]]. *)
Definition kept (c : char) : bool := is_word c || isspace c || (c =? 45).

(** [re.sub(r"[^\w\s-]", "", s)] *)
Definition sub_punctuation (s : str) : str := filter kept s.

(** [re.sub(r"\s+", " ", s)]: the scanner replaces each maximal run
    of white space by one U+0020; [in_run] tells that the previous
    code point was white space, so that the run has already been
    replaced. *)
Fixpoint sub_whitespace_from (in_run : bool) (s : str) : str :=
  match s with
  | [] => []
  | c :: s' =>
      if isspace c
      then if in_run then sub_whitespace_from true s'
           else 32 :: sub_whitespace_from true s'
      else c :: sub_whitespace_from false s'
  end.

Definition sub_whitespace : str → str := sub_whitespace_from false.

(** [s.lstrip()], [s.rstrip()] and [s.strip()] without argument. *)
Fixpoint lstrip (s : str) : str :=
  match s with
  | [] => []
  | c :: s' => if isspace c then lstrip s' else s
  end.

Definition rstrip (s : str) : str := reverse (lstrip (reverse s)).

Definition strip (s : str) : str := rstrip (lstrip s).

(** Lines 78-79: the two substitutions and the trim. *)
Definition cleaned_text (raw_text : str) : str :=
  strip (sub_whitespace (sub_punctuation raw_text)).

(** Two shapes of strings the cleaner produces. *)

(** A trimmed string starts and ends with a code point that is not
    white space, or is empty. *)
Definition trimmed (s : str) : Prop :=
  lstrip s = s ∧ lstrip (reverse s) = reverse s.

(** Every white-space code point is U+0020 and follows a code point
    that is not white space; [in_run] tells that the string follows
    a white-space code point. *)
Fixpoint collapsed_from (in_run : bool) (s : str) : bool :=
  match s with
  | [] => true
  | c :: s' =>
      if isspace c then (c =? 32) && negb in_run && collapsed_from true s'
      else collapsed_from false s'
  end.
End Text.

(** ** Streamlit: what a run of the script shows *)

Inductive level := Info | Warning | Error.

#[export] Instance level_eq_dec : EqDecision level.
Proof. solve_decision. Defined.

Definition event : Type := level * string.

(** How a block of statements ends: control reaches the statement
    after it, the function executes the [return None] of the given
    source line, or [st.stop()] halts the script. *)
Inductive flow (A : Type) : Type :=
  | Next (a : A)
  | ReturnNone (line : nat)
  | Stop.
Arguments Next {A} a.
Arguments ReturnNone {A} line.
Arguments Stop {A}.

(** A block of statements: the events it shows, in order, and how it
    ends. *)
Definition Script (A : Type) : Type := list event * flow A.

#[export] Instance script_ret : MRet Script := λ A a, ([], Next a).

#[export] Instance script_bind : MBind Script := λ A B f m,
  match m.2 with
  | Next a => (m.1 ++ (f a).1, (f a).2)
  | ReturnNone line => (m.1, ReturnNone line)
  | Stop => (m.1, Stop)
  end.

Definition emit (lv : level) (msg : string) : Script () := ([(lv, msg)], Next ()).
Definition st_info : string → Script () := emit Info.
Definition st_warning : string → Script () := emit Warning.
Definition st_error : string → Script () := emit Error.
Definition st_stop {A} : Script A := ([], Stop).
Definition return_None {A} (line : nat) : Script A := ([], ReturnNone line).

Definition shown {A} (m : Script A) : list event := m.1.
Definition ending {A} (m : Script A) : flow A := m.2.
Definition warnings_in (events : list event) : list string :=
  snd <$> filter (λ ev : event, ev.1 = Warning) events.
Definition warnings {A} (m : Script A) : list string := warnings_in (shown m).

(** ** The external collaborators *)

(** An exception is known to the program through [str(e)] only. *)
Definition Exception := string.

Definition bytes := list Byte.byte.

(** A spaCy token: the program reads [lemma_] and [is_alpha]. spaCy
    computes [is_alpha] from the text of the token
    ([token.text.isalpha()]), not from its lemma. *)
Record Token := { lemma_ : str; is_alpha : bool }.

(** A loaded spaCy pipeline [nlp]: the call [nlp(text)], taken to
    return its tokens, and [nlp.Defaults.stop_words]. *)
Record Language := {
  nlp_call : str → list Token;
  stop_words : gset str;
}.

(** A [SpellChecker] object: [spell.known(words)], a set of words. *)
Record SpellCheckerObj := { known : list str → Exception + gset str }.

Record World := {
  (** [fitz.open(stream=..., filetype="pdf")], then the text of each
      page in page order. *)
  fitz_open : bytes → Exception + list str;
  (** [spacy.load(model_name)]; [None] is [OSError]. *)
  spacy_load : string → option Language;
  (** [SpellChecker(language=code)] *)
  SpellChecker : string → Exception + SpellCheckerObj;
}.

(** ** The configuration table *)

Record LanguageDetails := { spacy : string; spellchecker : option string }.

Definition PYSPELLCHECKER_SUPPORTED_LANGS : list string :=
  ["en"; "es"; "fr"; "pt"; "de"; "it"; "ru"; "nl"]%string.

(** ["xx" if "xx" in PYSPELLCHECKER_SUPPORTED_LANGS else None] *)
Definition if_supported (code : string) : option string :=
  if bool_decide (code ∈ PYSPELLCHECKER_SUPPORTED_LANGS) then Some code else None.

Definition SUPPORTED_LANGUAGES : list (string * LanguageDetails) := [
  ("Catalan (Català)", {| spacy := "ca_core_news_sm"; spellchecker := None |});
  ("Chinese (简体中文)", {| spacy := "zh_core_web_sm"; spellchecker := None |});
  ("Croatian (Hrvatski)", {| spacy := "hr_core_news_sm"; spellchecker := None |});
  ("Danish (Dansk)", {| spacy := "da_core_news_sm"; spellchecker := None |});
  ("Dutch (Nederlands)", {| spacy := "nl_core_news_sm"; spellchecker := if_supported "nl" |});
  ("English", {| spacy := "en_core_web_sm"; spellchecker := if_supported "en" |});
  ("Finnish (Suomi)", {| spacy := "fi_core_news_sm"; spellchecker := None |});
  ("French (Français)", {| spacy := "fr_core_news_sm"; spellchecker := if_supported "fr" |});
  ("German (Deutsch)", {| spacy := "de_core_news_sm"; spellchecker := if_supported "de" |});
  ("Greek (Ελληνικά)", {| spacy := "el_core_news_sm"; spellchecker := None |});
  ("Italian (Italiano)", {| spacy := "it_core_news_sm"; spellchecker := if_supported "it" |});
  ("Japanese (日本語)", {| spacy := "ja_core_news_sm"; spellchecker := None |});
  ("Korean (한국어)", {| spacy := "ko_core_news_sm"; spellchecker := None |});
  ("Lithuanian (Lietuvių)", {| spacy := "lt_core_news_sm"; spellchecker := None |});
  ("Macedonian (Македонски)", {| spacy := "mk_core_news_sm"; spellchecker := None |});
  ("Norwegian Bokmål (Norsk Bokmål)", {| spacy := "nb_core_news_sm"; spellchecker := None |});
  ("Polish (Polski)", {| spacy := "pl_core_news_sm"; spellchecker := None |});
  ("Portuguese (Português)", {| spacy := "pt_core_news_sm"; spellchecker := if_supported "pt" |});
  ("Romanian (Română)", {| spacy := "ro_core_news_sm"; spellchecker := None |});
  ("Russian (Русский)", {| spacy := "ru_core_news_sm"; spellchecker := if_supported "ru" |});
  ("Slovenian (Slovenščina)", {| spacy := "sl_core_news_sm"; spellchecker := None |});
  ("Spanish (Español)", {| spacy := "es_core_news_sm"; spellchecker := if_supported "es" |});
  ("Swedish (Svenska)", {| spacy := "sv_core_news_sm"; spellchecker := None |});
  ("Ukrainian (Українська)", {| spacy := "uk_core_news_sm"; spellchecker := None |})
]%string.

(** [SUPPORTED_LANGUAGES[name]] *)
Definition language_details_of (name : string) : option LanguageDetails :=
  (λ found, found.2.2) <$> list_find (λ entry, entry.1 = name) SUPPORTED_LANGUAGES.

(** ** Aggregation: [Counter] and the sorted [DataFrame] *)

(** The rows of a [DataFrame] with the columns [Word] and [Count]. *)
Definition DataFrame := list (str * nat).

(** [counter[word] += 1] on a [Counter], which is a [dict] and keeps
    its keys in the order of their first insertion. *)
Fixpoint counter_add (word : str) (counter : list (str * nat)) : list (str * nat) :=
  match counter with
  | [] => [(word, 1%nat)]
  | (w, n) :: counter' =>
      if decide (w = word) then (w, S n) :: counter'
      else (w, n) :: counter_add word counter'
  end.

(** [Counter(words).items()] *)
Definition Counter_items (words : list str) : list (str * nat) :=
  foldl (λ counter word, counter_add word counter) [] words.

(** [df.sort_values(by="Count", ascending=False)]. The rows are
    inserted one by one into the sorted rows after them; rows of
    equal count keep their order, which pandas does not promise. *)
Fixpoint insert_by_count (row : str * nat) (df : DataFrame) : DataFrame :=
  match df with
  | [] => [row]
  | row' :: df' =>
      if decide (row'.2 ≤ row.2)%nat then row :: row' :: df'
      else row' :: insert_by_count row df'
  end.

Definition sort_values_by_Count_descending (df : DataFrame) : DataFrame :=
  foldr insert_by_count [] df.

(** Lines 146-149. *)
Definition frequency_table (meaningful_lemmas : list str) : DataFrame :=
  sort_values_by_Count_descending (Counter_items meaningful_lemmas).

(** The order of two consecutive rows of a sorted frame. *)
Definition by_count_descending : relation (str * nat) :=
  λ row1 row2, (row2.2 ≤ row1.2)%nat.

(** ** The pipeline *)

(** The truth value of [language_details.get("spellchecker")]:
    [None] and the empty string are false. *)
Definition truthy_code (spellchecker_code : option string) : option string :=
  match spellchecker_code with
  | Some EmptyString => None
  | other => other
  end.

(** The messages of lines 109-139. *)
Definition ATTEMPTING (spellchecker_code : string) : string :=
  "Attempting spell checking for language code: '" +:+ spellchecker_code +:+ "'...".
Definition FILTERED_OUT_ALL (spellchecker_code : string) : string :=
  "Spell checking for '" +:+ spellchecker_code +:+ "' filtered out all words. "
  +:+ "This might be due to limited dictionary coverage for this text. "
  +:+ "Proceeding with words before spell check.".
Definition NONE_IN_DICTIONARY (spellchecker_code : string) : string :=
  "No words from the text were found in the '" +:+ spellchecker_code
  +:+ "' dictionary. "
  +:+ "Spell checking may not be effective. Proceeding with words before spell check.".
Definition COULD_NOT_APPLY (spellchecker_code : string) (e : Exception) : string :=
  "Could not apply spell checking for '" +:+ spellchecker_code +:+ "': " +:+ e +:+ ". "
  +:+ "This language might not be supported by the spellchecker library, or an error occurred. "
  +:+ "Skipping spell check.".
Definition SKIPPING : string :=
  "Spell checking is enabled, but the selected language does not have a configured or supported spellchecker. Skipping.".

(** The messages of lines 71, 100 and 143. *)
Definition NO_TEXT : string :=
  "No text could be extracted from the PDF, or the file is empty.".
Definition NO_PROCESSABLE_WORDS : string :=
  "No processable words found after initial filtering (and optional stopword removal).".
Definition NO_WORDS_REMAINED : string :=
  "No words remained after all processing steps.".

Section Pipeline.
Context `{Unicode}.
Variable W : World.

(** Lines 45-54. *)
Definition load_spacy_model (model_name : string) : Script Language :=
  match spacy_load W model_name with
  | Some nlp => mret nlp
  | None =>
      st_error ("SpaCy model '" +:+ model_name +:+ "' not found. "
        +:+ "Please download it by running: python -m spacy download "
        +:+ model_name) ;;
      st_stop
  end.

(** Lines 87-91. *)
Definition basic_filter (spacy_doc : list Token) : list str :=
  (λ word, lower (lemma_ word))
    <$> filter (λ word, is_alpha word && bool_decide (1 < length (lemma_ word))%nat)
               spacy_doc.

(** Lines 94-97. *)
Definition stopword_removal (nlp : Language) (remove_stopwords : bool)
    (lemmas : list str) : Script (list str) :=
  if remove_stopwords then
    st_info "Removing stopwords..." ;;
    mret (filter (λ lemma, lemma ∉ stop_words nlp) lemmas)
  else mret lemmas.

(** Lines 111-112: the two calls inside [try] that can raise. *)
Definition dictionary_lookup (spellchecker_code : string)
    (meaningful_lemmas : list str) : Exception + gset str :=
  match SpellChecker W spellchecker_code with
  | inl e => inl e
  | inr spell => known spell meaningful_lemmas
  end.

(** Lines 106-139; the value is [meaningful_lemmas] after the
    block. *)
Definition spell_checking (language_details : LanguageDetails)
    (enable_spellcheck : bool) (meaningful_lemmas : list str) : Script (list str) :=
  if enable_spellcheck then
    match truthy_code (spellchecker language_details) with
    | Some spellchecker_code =>
        st_info (ATTEMPTING spellchecker_code) ;;
        match dictionary_lookup spellchecker_code meaningful_lemmas with
        | inr dictionary_words =>
            let current_lemmas_after_spellcheck :=
              filter (λ lemma, lemma ∈ dictionary_words) meaningful_lemmas in
            if bool_decide (meaningful_lemmas ≠ [])
               && bool_decide (current_lemmas_after_spellcheck = [])
            then
              st_warning (FILTERED_OUT_ALL spellchecker_code) ;;
              mret meaningful_lemmas
            else if bool_decide (dictionary_words = ∅)
                    && bool_decide (meaningful_lemmas ≠ [])
            then
              st_warning (NONE_IN_DICTIONARY spellchecker_code) ;;
              mret meaningful_lemmas
            else mret current_lemmas_after_spellcheck
        | inl e =>
            st_warning (COULD_NOT_APPLY spellchecker_code e) ;;
            mret meaningful_lemmas
        end
    | None =>
        st_info SKIPPING ;;
        mret meaningful_lemmas
    end
  else mret meaningful_lemmas.

(** The value of [lemmas] when line 99 tests it. *)
Definition lemmas_at_line_99 (nlp : Language) (remove_stopwords : bool)
    (raw_text : str) : list str :=
  let lemmas := basic_filter (nlp_call nlp (cleaned_text raw_text)) in
  if remove_stopwords then filter (λ lemma, lemma ∉ stop_words nlp) lemmas
  else lemmas.

(** Lines 56-151. *)
Definition extract_book_words (pdf_bytes : bytes)
    (language_details : LanguageDetails)
    (remove_stopwords enable_spellcheck : bool) : Script DataFrame :=
  st_info "Reading PDF file..." ;;
  doc ← match fitz_open W pdf_bytes with
        | inr doc => mret doc
        | inl e => st_error ("Error reading PDF file: " +:+ e) ;; return_None 65
        end;
  let raw_text := concat doc in
  (if bool_decide (strip raw_text = [])
   then st_warning NO_TEXT ;; return_None 72 else mret ()) ;;
  st_info "Cleaning and processing text..." ;;
  let cleaned_text := cleaned_text raw_text in
  let spacy_model_name := spacy language_details in
  nlp ← load_spacy_model spacy_model_name;
  let spacy_doc := nlp_call nlp cleaned_text in
  let lemmas := basic_filter spacy_doc in
  lemmas ← stopword_removal nlp remove_stopwords lemmas;
  (if bool_decide (lemmas = [])
   then st_warning NO_PROCESSABLE_WORDS ;; return_None 101 else mret ()) ;;
  let meaningful_lemmas := lemmas in
  meaningful_lemmas ← spell_checking language_details enable_spellcheck meaningful_lemmas;
  (if bool_decide (meaningful_lemmas = [])
   then st_warning NO_WORDS_REMAINED ;; return_None 144 else mret ()) ;;
  mret (frequency_table meaningful_lemmas).
End Pipeline.

(** What has been shown when line 99 is reached. *)
Definition shown_before_line_99 (remove_stopwords : bool) : list event :=
  [(Info, "Reading PDF file..."); (Info, "Cleaning and processing text...")]%string
  ++ (if remove_stopwords then [(Info, "Removing stopwords..."%string)] else []).

(** ** The dictionary stage, path by path *)

(** The ways through lines 106-139. *)
Inductive spell_checking_path (W : World) (language_details : LanguageDetails)
    (enable_spellcheck : bool) (lemmas : list str) : Script (list str) → Prop :=
  | path_disabled :
      enable_spellcheck = false →
      spell_checking_path W language_details enable_spellcheck lemmas
        ([], Next lemmas)
  | path_skipped :
      enable_spellcheck = true →
      truthy_code (spellchecker language_details) = None →
      spell_checking_path W language_details enable_spellcheck lemmas
        ([(Info, SKIPPING)], Next lemmas)
  | path_error code e :
      enable_spellcheck = true →
      truthy_code (spellchecker language_details) = Some code →
      dictionary_lookup W code lemmas = inl e →
      spell_checking_path W language_details enable_spellcheck lemmas
        ([(Info, ATTEMPTING code); (Warning, COULD_NOT_APPLY code e)],
         Next lemmas)
  | path_fallback code dictionary_words :
      enable_spellcheck = true →
      truthy_code (spellchecker language_details) = Some code →
      dictionary_lookup W code lemmas = inr dictionary_words →
      lemmas ≠ [] →
      filter (λ lemma, lemma ∈ dictionary_words) lemmas = [] →
      spell_checking_path W language_details enable_spellcheck lemmas
        ([(Info, ATTEMPTING code); (Warning, FILTERED_OUT_ALL code)],
         Next lemmas)
  | path_adopted code dictionary_words :
      enable_spellcheck = true →
      truthy_code (spellchecker language_details) = Some code →
      dictionary_lookup W code lemmas = inr dictionary_words →
      (lemmas ≠ [] → filter (λ lemma, lemma ∈ dictionary_words) lemmas ≠ []) →
      spell_checking_path W language_details enable_spellcheck lemmas
        ([(Info, ATTEMPTING code)],
         Next (filter (λ lemma, lemma ∈ dictionary_words) lemmas)).

(** ** The stage at which a run finds no words *)

Inductive empty_stage :=
  | NoTextExtracted
  | AfterBasicFiltering
  | AfterStopwordRemoval
  | AfterAllProcessing.

(** The first stage of a run whose text or lemma sequence is empty,
    if there is one. *)
Definition first_empty_stage `{Unicode} (W : World) (pdf_bytes : bytes)
    (language_details : LanguageDetails)
    (remove_stopwords enable_spellcheck : bool) : option empty_stage :=
  match fitz_open W pdf_bytes with
  | inl _ => None
  | inr doc =>
      let raw_text := concat doc in
      if bool_decide (strip raw_text = []) then Some NoTextExtracted
      else
        match spacy_load W (spacy language_details) with
        | None => None
        | Some nlp =>
            let lemmas := lemmas_at_line_99 nlp remove_stopwords raw_text in
            if bool_decide (basic_filter (nlp_call nlp (cleaned_text raw_text)) = [])
            then Some AfterBasicFiltering
            else if bool_decide (lemmas = []) then Some AfterStopwordRemoval
            else
              match ending (spell_checking W language_details enable_spellcheck lemmas) with
              | Next [] => Some AfterAllProcessing
              | _ => None
              end
        end
  end.

(** The warning and the [return None] the code has for each stage. *)
Definition stage_message (stage : empty_stage) : string :=
  match stage with
  | NoTextExtracted => NO_TEXT
  | AfterBasicFiltering | AfterStopwordRemoval => NO_PROCESSABLE_WORDS
  | AfterAllProcessing => NO_WORDS_REMAINED
  end.

Definition stage_return_line (stage : empty_stage) : nat :=
  match stage with
  | NoTextExtracted => 72
  | AfterBasicFiltering | AfterStopwordRemoval => 101
  | AfterAllProcessing => 144
  end.

(** ** A small world to run the pipeline in *)

(** The code points of an ASCII literal. *)
Definition text (s : string) : str := N_of_ascii <$> list_ascii_of_string s.

(** A toy analyzer: tokens are separated by U+0020, a token is
    alphabetic when its text is, and its lemma is looked up in a table
    and is the text itself when the table does not have it. *)
Fixpoint split_on_space (word s : str) : list str :=
  match s with
  | [] => match word with [] => [] | _ => [word] end
  | c :: s' =>
      if c =? 32
      then match word with
           | [] => split_on_space [] s'
           | _ => word :: split_on_space [] s'
           end
      else split_on_space (word ++ [c]) s'
  end.

Definition toy_lemmas : list (str * str) :=
  [(text "sat", text "sit"); (text "ran", text "run")].

Definition toy_token (word : str) : Token := {|
  lemma_ := default word (snd <$> find (λ entry, bool_decide (entry.1 = word)) toy_lemmas);
  is_alpha := @str_isalpha sample_unicode word;
|}.

Definition toy_nlp : Language := {|
  nlp_call s := toy_token <$> split_on_space [] s;
  stop_words := {[ text "the"; text "on" ]};
|}.

(** A world with one document, the toy analyzer under the name of
    every model of the configuration table, and one dictionary (or the
    exception that creating the spell checker raises). *)
Definition toy_world (pages : Exception + list str)
    (dictionary : Exception + gset str) : World := {|
  fitz_open _ := pages;
  spacy_load model_name :=
    if bool_decide (model_name ∈ (λ entry, spacy entry.2) <$> SUPPORTED_LANGUAGES)
    then Some toy_nlp else None;
  SpellChecker _ :=
    match dictionary with
    | inl e => inl e
    | inr words =>
        inr {| known candidates := inr (words ∩ list_to_set candidates) |}
    end;
|}.

Definition English : LanguageDetails :=
  {| spacy := "en_core_web_sm"; spellchecker := Some "en"%string |}.
Definition Catalan : LanguageDetails :=
  {| spacy := "ca_core_news_sm"; spellchecker := None |}.

(** The text of the end-to-end scenario, and its lemmas once the
    stopwords are removed. *)
Definition cat_text : str := text "The cat sat on the mat. The cat ran.".
Definition cat_lemmas : list str :=
  [text "cat"; text "sit"; text "mat"; text "cat"; text "run"].

(** A word that starts with U+0130. *)
Definition Istanbul : str := 304 :: text "stanbul".

(** The worlds of the examples: the scenario with no dictionary at
    hand, with a dictionary that has none of its words, and with a
    spell checker that cannot be created; and three one-page
    documents. *)
Definition world_cat : World :=
  toy_world (inr [cat_text]) (inl "unused"%string).
Definition world_unknown_words : World :=
  toy_world (inr [cat_text]) (inr {[ text "dog" ]}).
Definition world_no_dictionary : World :=
  toy_world (inr [cat_text]) (inl "The provided dictionary language (en) does not exist!"%string).
Definition world_digits : World :=
  toy_world (inr [text "42 7"]) (inl "unused"%string).
Definition world_the : World :=
  toy_world (inr [text "the"]) (inl "unused"%string).
Definition world_Istanbul : World :=
  toy_world (inr [Istanbul]) (inl "unused"%string).

(** ** Reading a table *)

(** [counter[word]], which is 0 for a word that is no key. *)
Fixpoint counter_get (word : str) (counter : list (str * nat)) : nat :=
  match counter with
  | [] => 0%nat
  | (w, n) :: counter' =>
      if decide (w = word) then n else counter_get word counter'
  end.

(** The number of occurrences of a word in a sequence. *)
Definition occurrences (word : str) (words : list str) : nat :=
  length (filter (λ w, w = word) words).

(** The errors among the events of a run. *)
Definition errors_in (events : list event) : list string :=
  snd <$> filter (λ ev : event, ev.1 = Error) events.

(** ** The page: the "Analyze PDF" button (lines 217-259) *)

(** An uploaded file: [uploaded_file.name] and
    [uploaded_file.getvalue()]. *)
Record UploadedFile := { name : string; getvalue : bytes }.

(** [s.rsplit('.', 1)[0]]: the part of [s] before its last dot, and
    [s] itself when it has no dot. The name is its UTF-8 bytes, among
    which the byte of the dot stands for a dot only. *)
Fixpoint has_dot (s : string) : bool :=
  match s with
  | EmptyString => false
  | String c s' => Ascii.eqb c "." || has_dot s'
  end.

Fixpoint rsplit_dot_0 (s : string) : string :=
  match s with
  | EmptyString => EmptyString
  | String c s' =>
      if has_dot s' then String c (rsplit_dot_0 s')
      else if Ascii.eqb c "." then EmptyString
      else String c s'
  end.

(** What a download button offers: the workbook that
    [df.to_excel(writer, index=False, sheet_name=...)] writes, or the
    text of [df.to_csv(..., index=False)]. pandas and xlsxwriter make
    the bytes; the page only says of which frame. *)
Inductive payload :=
  | to_excel (df : DataFrame) (sheet_name : string)
  | to_csv (df : DataFrame).

(** What the page shows below the button. *)
Inductive element :=
  | Shown (ev : event)
  | Success (msg : string)
  | Dataframe (rows : DataFrame)
  | DownloadButton (label : string) (data : payload) (file_name mime : string).

Definition NO_WORDS_TO_DISPLAY : string :=
  "Analysis complete, but no words were found to display after filtering.".
Definition PLEASE_UPLOAD : string :=
  "Please upload a PDF file to extract.".

(** Lines 217-259, once the button is pressed. A run that [st.stop()]
    halts shows nothing after its events. *)
Definition analyze_pdf `{Unicode} (W : World) (uploaded_file : option UploadedFile)
    (language_details : LanguageDetails)
    (remove_stopwords_option enable_spellcheck_option : bool) : list element :=
  match uploaded_file with
  | Some file =>
      let pdf_bytes := getvalue file in
      let run := extract_book_words W pdf_bytes language_details
                   remove_stopwords_option enable_spellcheck_option in
      (Shown <$> shown run)
      ++ match ending run with
         | Next df_results =>
             if bool_decide (df_results ≠ []) then
               [Success "Word analysis complete!";
                Dataframe (take 200 df_results);
                DownloadButton "Download Results as Excel"
                  (to_excel df_results "WordAnalysis")
                  (rsplit_dot_0 (name file) +:+ "_words.xlsx")
                  "application/vnd.openxmlformats-officedocument.spreadsheetml.sheet";
                DownloadButton "Download Results as CSV"
                  (to_csv df_results)
                  (rsplit_dot_0 (name file) +:+ "_words.csv")
                  "text/csv"]
             else [Shown (Info, NO_WORDS_TO_DISPLAY)]
         | ReturnNone _ => []
         | Stop => []
         end
  | None => [Shown (Warning, PLEASE_UPLOAD)]
  end.

(** The scenario with a dictionary that has the word cat only, the
    table of the scenario, the table it has when the stopwords stay,
    and an uploaded file. *)
Definition world_cat_dictionary : World :=
  toy_world (inr [cat_text]) (inr {[ text "cat" ]}).
Definition cat_table : DataFrame :=
  [(text "cat", 2%nat); (text "sit", 1%nat); (text "mat", 1%nat); (text "run", 1%nat)].
Definition cat_table_with_stopwords : DataFrame :=
  [(text "the", 3%nat); (text "cat", 2%nat); (text "sit", 1%nat);
   (text "on", 1%nat); (text "mat", 1%nat); (text "run", 1%nat)].
Definition book_pdf : UploadedFile := {| name := "book.pdf"; getvalue := [] |}.

(** * Properties *)

(** ** The text cleaner *)

Section TextFacts.
Context `{Unicode}.

Lemma isspace_space : isspace 32 = true.
Proof. reflexivity. Qed.

(** *** Trimming *)

Lemma lstrip_suffix s : ∃ w, s = w ++ lstrip s ∧ Forall isspace w.
Proof.
  induction s as [|c s [w [Hs Hw]]]; [by exists []|].
  simpl. destruct (isspace c) eqn:Hc.
  - exists (c :: w). split; [by rewrite Hs at 1|].
    constructor; [by rewrite Hc|done].
  - by exists [].
Qed.

Lemma lstrip_head s c t : lstrip s = c :: t → isspace c = false.
Proof.
  induction s as [|d s IH]; [done|]. simpl.
  destruct (isspace d) eqn:Hd; [done|]. by intros [= <- _].
Qed.

Lemma lstrip_lstrip s : lstrip (lstrip s) = lstrip s.
Proof.
  destruct (lstrip s) as [|c t] eqn:E; [done|].
  simpl. by rewrite (lstrip_head _ _ _ E).
Qed.

Lemma rstrip_prefix s : ∃ w, s = rstrip s ++ w ∧ Forall isspace w.
Proof.
  destruct (lstrip_suffix (reverse s)) as [w [Hs Hw]].
  exists (reverse w). split; [|by apply Forall_reverse].
  unfold rstrip. rewrite <-reverse_app, <-Hs. by rewrite reverse_involutive.
Qed.

Lemma strip_trimmed s : trimmed (strip s).
Proof.
  split.
  - unfold strip. destruct (rstrip_prefix (lstrip s)) as [w [Hs _]].
    destruct (rstrip (lstrip s)) as [|c t] eqn:E; [done|].
    simpl. rewrite <-app_comm_cons in Hs.
    by rewrite (lstrip_head _ _ _ Hs).
  - unfold strip, rstrip. rewrite reverse_involutive. apply lstrip_lstrip.
Qed.

Lemma trimmed_strip s : trimmed s → strip s = s.
Proof.
  intros [Hl Hr]. unfold strip, rstrip.
  by rewrite Hl, Hr, reverse_involutive.
Qed.

Lemma elem_of_strip c s : c ∈ strip s → c ∈ s.
Proof.
  unfold strip. intros Hc.
  destruct (rstrip_prefix (lstrip s)) as [w [Hs _]].
  destruct (lstrip_suffix s) as [v [Hv _]].
  rewrite Hv, Hs. set_solver.
Qed.

(** *** Collapsed white space *)

Lemma collapsed_sub_whitespace b s :
  collapsed_from b (sub_whitespace_from b s) = true.
Proof.
  revert b. induction s as [|c s IH]; intros b; [done|].
  simpl. destruct (isspace c) eqn:Hc.
  - destruct b; [done|]. simpl. by rewrite IH.
  - simpl. by rewrite Hc.
Qed.

Lemma sub_whitespace_collapsed b s :
  collapsed_from b s = true → sub_whitespace_from b s = s.
Proof.
  revert b. induction s as [|c s IH]; intros b; [done|].
  simpl. destruct (isspace c).
  - intros [[Hc Hb%negb_true_iff]%andb_prop IHs]%andb_prop. subst b.
    apply N.eqb_eq in Hc. subst c. by rewrite IH.
  - intros Hs. by rewrite IH.
Qed.

Lemma collapsed_lstrip b s :
  collapsed_from b s = true → collapsed_from false (lstrip s) = true.
Proof.
  revert b. induction s as [|c s IH]; intros b; [done|].
  simpl. destruct (isspace c) eqn:Hc.
  - intros [_ Hs]%andb_prop. by eapply IH.
  - simpl. by rewrite Hc.
Qed.

Lemma collapsed_prefix b s w :
  collapsed_from b (s ++ w) = true → collapsed_from b s = true.
Proof.
  revert b. induction s as [|c s IH]; intros b; [done|].
  simpl. destruct (isspace c).
  - intros [-> Hs]%andb_prop. by rewrite (IH _ Hs).
  - apply IH.
Qed.

Lemma collapsed_strip s :
  collapsed_from false s = true → collapsed_from false (strip s) = true.
Proof.
  intros Hs%collapsed_lstrip. unfold strip.
  destruct (rstrip_prefix (lstrip s)) as [w [Hw _]].
  rewrite Hw in Hs. by eapply collapsed_prefix.
Qed.

Lemma elem_of_sub_whitespace b c s :
  c ∈ sub_whitespace_from b s →
  c ∈ s ∨ (c = 32 ∧ ∃ d, d ∈ s ∧ isspace d = true).
Proof.
  revert b. induction s as [|d s IH]; intros b; simpl; [set_solver|].
  destruct (isspace d) eqn:Hd.
  - assert (c ∈ 32 :: sub_whitespace_from true s →
            c ∈ d :: s ∨ (c = 32 ∧ ∃ d0, d0 ∈ d :: s ∧ isspace d0 = true)) as Hrun.
    { intros [->|Hc%IH]%elem_of_cons.
      - right. split; [done|]. exists d. set_solver.
      - destruct Hc as [Hc|[-> [e [He Hs]]]]; [set_solver|].
        right. split; [done|]. exists e. set_solver. }
    destruct b; [|done]. intros Hc. apply Hrun. set_solver.
  - intros [->|Hc%IH]%elem_of_cons; [set_solver|].
    destruct Hc as [Hc|[-> [e [He Hs]]]]; [set_solver|].
    right. split; [done|]. exists e. set_solver.
Qed.

(** *** The kept class *)

Lemma sub_punctuation_kept s : Forall kept s → sub_punctuation s = s.
Proof.
  unfold sub_punctuation. induction 1 as [|c s Hc Hs IH]; [done|].
  by rewrite filter_cons_True, IH.
Qed.

Lemma kept_sub_punctuation s : Forall kept (sub_punctuation s).
Proof.
  apply Forall_forall. intros c Hc.
  by apply list_elem_of_filter in Hc as [Hc _].
Qed.

Lemma kept_sub_whitespace b s :
  Forall kept s → Forall kept (sub_whitespace_from b s).
Proof.
  intros Hs. apply Forall_forall. intros c Hc.
  apply elem_of_sub_whitespace in Hc as [Hc|[-> _]].
  - by eapply Forall_forall in Hs.
  - unfold kept. rewrite isspace_space. by rewrite orb_true_r.
Qed.

Lemma kept_strip s : Forall kept s → Forall kept (strip s).
Proof.
  rewrite !Forall_forall. intros Hs c Hc%elem_of_strip. by apply Hs.
Qed.
End TextFacts.

(** C3. Cleaning is idempotent: cleaning the cleaned text returns it
    unchanged, whatever the Unicode tables say about letters and
    digits. *)
Theorem cleaned_text_idempotent `{Unicode} (s : str) :
  cleaned_text (cleaned_text s) = cleaned_text s.
Proof.
  set (r := cleaned_text s).
  assert (Forall kept r) as Hkept.
  { apply kept_strip, kept_sub_whitespace, kept_sub_punctuation. }
  assert (collapsed_from false r = true) as Hcollapsed.
  { apply collapsed_strip, collapsed_sub_whitespace. }
  unfold cleaned_text at 1, sub_whitespace.
  rewrite (sub_punctuation_kept _ Hkept).
  rewrite (sub_whitespace_collapsed _ _ Hcollapsed).
  apply trimmed_strip, strip_trimmed.
Qed.

(** C4, as the code has it. A code point of the cleaned text occurs in
    the input, or it is the space U+0020 that stands for a run of
    white space of the input. *)
Theorem cleaned_text_chars `{Unicode} (s : str) (c : char) :
  c ∈ cleaned_text s →
  c ∈ s ∨ (c = 32 ∧ ∃ d, d ∈ s ∧ isspace d = true).
Proof.
  unfold cleaned_text, sub_whitespace.
  intros Hc%elem_of_strip%elem_of_sub_whitespace.
  destruct Hc as [Hc|[-> [d [Hd Hs]]]].
  - left. by apply list_elem_of_filter in Hc as [_ Hc].
  - right. split; [done|]. exists d. split; [|done].
    by apply list_elem_of_filter in Hd as [_ Hd].
Qed.

(** ** The aggregator *)

Section Aggregator.
Implicit Types (counter df : list (str * nat)) (row : str * nat) (word : str).

Lemma counter_add_keys word counter :
  (counter_add word counter).*1
  = if decide (word ∈ counter.*1) then counter.*1 else counter.*1 ++ [word].
Proof.
  induction counter as [|[w n] counter IH]; [done|].
  cbn [counter_add].
  destruct (decide (w = word)) as [->|Hne]; rewrite !fmap_cons; cbn [fst].
  - rewrite decide_True; [done|]. by left.
  - rewrite IH. destruct (decide (word ∈ counter.*1)) as [Hin|Hnotin].
    + rewrite decide_True; [done|]. by right.
    + rewrite decide_False; [done|]. by intros [->|?]%elem_of_cons.
Qed.

Lemma counter_add_NoDup word counter :
  NoDup counter.*1 → NoDup (counter_add word counter).*1.
Proof.
  intros Hnd. rewrite counter_add_keys. case_decide; [done|].
  apply NoDup_app. split_and!; [done| |apply NoDup_singleton].
  by intros w Hw ->%list_elem_of_singleton.
Qed.

Lemma counter_add_total word counter :
  sum_list (counter_add word counter).*2 = S (sum_list counter.*2).
Proof.
  induction counter as [|[w n] counter IH]; [done|].
  cbn [counter_add]. destruct (decide (w = word)); csimpl; [done|].
  rewrite IH. lia.
Qed.

Lemma Counter_items_from counter (words : list str) :
  let counter' := foldl (λ counter word, counter_add word counter) counter words in
  (NoDup counter.*1 → NoDup counter'.*1)
  ∧ sum_list counter'.*2 = (sum_list counter.*2 + length words)%nat.
Proof.
  revert counter. induction words as [|word words IH]; intros counter; simpl.
  - split; [done|lia].
  - destruct (IH (counter_add word counter)) as [Hnd Hsum]. split.
    + intros Hc. by apply Hnd, counter_add_NoDup.
    + rewrite Hsum, counter_add_total. lia.
Qed.

Lemma insert_by_count_Permutation row df : insert_by_count row df ≡ₚ row :: df.
Proof.
  induction df as [|row' df IH]; [done|].
  simpl. case_decide; [done|]. rewrite IH. apply Permutation_swap.
Qed.

Lemma sort_values_Permutation df : sort_values_by_Count_descending df ≡ₚ df.
Proof.
  induction df as [|row df IH]; [done|].
  simpl. by rewrite insert_by_count_Permutation, IH.
Qed.

Lemma insert_by_count_HdRel row0 row df :
  by_count_descending row0 row →
  HdRel by_count_descending row0 df →
  HdRel by_count_descending row0 (insert_by_count row df).
Proof.
  intros Hrow Hdf. destruct df as [|row' df]; simpl; [by constructor|].
  case_decide; constructor; [done|]. by inversion Hdf.
Qed.

Lemma insert_by_count_Sorted row df :
  Sorted by_count_descending df →
  Sorted by_count_descending (insert_by_count row df).
Proof.
  induction 1 as [|row' df Hdf IH Hhd]; simpl; [by repeat constructor|].
  case_decide as Hle.
  - constructor; [by constructor|]. by constructor.
  - constructor; [done|]. apply insert_by_count_HdRel; [|done].
    unfold by_count_descending. lia.
Qed.

Lemma sort_values_Sorted df :
  Sorted by_count_descending (sort_values_by_Count_descending df).
Proof.
  induction df as [|row df IH]; simpl; [constructor|].
  by apply insert_by_count_Sorted.
Qed.

(** Consecutive rows of a sorted frame. *)
Lemma Sorted_consecutive df (i : nat) row1 row2 :
  Sorted by_count_descending df →
  df !! i = Some row1 → df !! S i = Some row2 →
  (row2.2 ≤ row1.2)%nat.
Proof.
  intros Hdf. revert i. induction Hdf as [|row df Hdf IH Hhd]; intros i; [done|].
  destruct i as [|i]; simpl.
  - intros [= ->] H2. destruct df as [|row' df]; [done|].
    simplify_eq/=. by inversion Hhd.
  - apply IH.
Qed.
End Aggregator.

(** An event is not in a list of events that is written out: it
    differs from each of them in its level or in its text. *)
Ltac not_shown :=
  rewrite ?not_elem_of_cons; split_and?;
  first [apply not_elem_of_nil | discriminate].

(** ** The dictionary stage *)

Section SpellChecking.
Variable W : World.
Implicit Types (lemmas : list str) (language_details : LanguageDetails).

Lemma filter_empty_set (words : gset str) lemmas :
  words = ∅ → filter (λ lemma, lemma ∈ words) lemmas = [].
Proof.
  intros ->. induction lemmas as [|lemma lemmas IH]; [done|].
  rewrite filter_cons_False; [done|]. set_solver.
Qed.

Lemma spell_checking_paths language_details enable_spellcheck lemmas :
  spell_checking_path W language_details enable_spellcheck lemmas
    (spell_checking W language_details enable_spellcheck lemmas).
Proof.
  unfold spell_checking.
  destruct enable_spellcheck; [|by constructor].
  destruct (truthy_code (spellchecker language_details)) as [code|] eqn:Hcode;
    [|by apply path_skipped].
  destruct (dictionary_lookup W code lemmas) as [e|dictionary_words] eqn:Hdict;
    [by eapply path_error|].
  destruct (decide (lemmas = [])) as [->|Hne].
  { rewrite bool_decide_eq_false_2 by naive_solver. simpl.
    rewrite andb_false_r. by eapply (path_adopted _ _ _ [] code dictionary_words). }
  rewrite (bool_decide_eq_true_2 (lemmas ≠ [])) by done.
  rewrite andb_true_l, andb_true_r.
  case_bool_decide as Hcur; [by eapply path_fallback|].
  case_bool_decide as Hempty; [|by eapply path_adopted].
  by rewrite filter_empty_set in Hcur.
Qed.

(** The stage always hands a sequence to the statements after it,
    and never an empty one when it was given words. *)
Lemma spell_checking_nonempty language_details enable_spellcheck lemmas :
  lemmas ≠ [] →
  ∃ meaningful_lemmas,
    ending (spell_checking W language_details enable_spellcheck lemmas)
    = Next meaningful_lemmas ∧ meaningful_lemmas ≠ [].
Proof.
  intros Hne.
  destruct (spell_checking_paths language_details enable_spellcheck lemmas);
    eauto.
Qed.

Lemma filter_none (words : gset str) lemmas :
  (∀ lemma, lemma ∈ lemmas → lemma ∉ words) →
  filter (λ lemma, lemma ∈ words) lemmas = [].
Proof.
  induction lemmas as [|lemma lemmas IH]; intros Hnone; [done|].
  rewrite filter_cons_False by (apply Hnone; left).
  apply IH. intros l Hl. apply Hnone. by right.
Qed.

Lemma spell_checking_fallback language_details lemmas code dictionary_words :
  truthy_code (spellchecker language_details) = Some code →
  dictionary_lookup W code lemmas = inr dictionary_words →
  lemmas ≠ [] →
  (∀ lemma, lemma ∈ lemmas → lemma ∉ dictionary_words) →
  spell_checking W language_details true lemmas
  = ([(Info, ATTEMPTING code); (Warning, FILTERED_OUT_ALL code)], Next lemmas).
Proof.
  intros Hcode Hdict Hne Hnone%filter_none.
  destruct (spell_checking_paths language_details true lemmas) as
    [?|? Hc|? ? ? Hc Hd|? ? ? Hc Hd|? ? ? Hc Hd Hcur];
    try done; rewrite Hcode in Hc; simplify_eq;
    rewrite Hdict in Hd; simplify_eq; [done|].
  by destruct Hcur.
Qed.

Lemma spell_checking_error language_details lemmas code e :
  truthy_code (spellchecker language_details) = Some code →
  dictionary_lookup W code lemmas = inl e →
  spell_checking W language_details true lemmas
  = ([(Info, ATTEMPTING code); (Warning, COULD_NOT_APPLY code e)], Next lemmas).
Proof.
  intros Hcode Hdict.
  destruct (spell_checking_paths language_details true lemmas) as
    [?|? Hc|? ? ? Hc Hd|? ? ? Hc Hd|? ? ? Hc Hd Hcur];
    try done; rewrite Hcode in Hc; simplify_eq;
    rewrite Hdict in Hd; by simplify_eq.
Qed.

Lemma spell_checking_skipped language_details lemmas :
  spellchecker language_details = None →
  spell_checking W language_details true lemmas
  = ([(Info, SKIPPING)], Next lemmas).
Proof.
  intros Hcode.
  destruct (spell_checking_paths language_details true lemmas) as
    [?|?|? ? ? Hc|? ? ? Hc|? ? ? Hc]; try done;
    by rewrite Hcode in Hc.
Qed.

(** The stage shows its own messages only. *)
Lemma spell_checking_shown language_details enable_spellcheck lemmas :
  (Warning, NO_WORDS_REMAINED)
  ∉ shown (spell_checking W language_details enable_spellcheck lemmas).
Proof.
  destruct (spell_checking_paths language_details enable_spellcheck lemmas);
    unfold shown; cbn [fst]; not_shown.
Qed.
End SpellChecking.

(** ** Runs of the pipeline *)

Section Runs.
Context `{Unicode}.
Variable W : World.

(** The function, branch by branch. *)
Lemma extract_book_words_branches pdf_bytes language_details
    (remove_stopwords enable_spellcheck : bool) :
  extract_book_words W pdf_bytes language_details remove_stopwords enable_spellcheck
  = match fitz_open W pdf_bytes with
    | inl e =>
        ([(Info, "Reading PDF file..."); (Error, "Error reading PDF file: " +:+ e)]%string,
         ReturnNone 65)
    | inr doc =>
        if bool_decide (strip (concat doc) = [])
        then ([(Info, "Reading PDF file..."%string); (Warning, NO_TEXT)], ReturnNone 72)
        else
          match spacy_load W (spacy language_details) with
          | None =>
              (shown_before_line_99 false
                 ++ shown (load_spacy_model W (spacy language_details)), Stop)
          | Some nlp =>
              let lemmas := lemmas_at_line_99 nlp remove_stopwords (concat doc) in
              if bool_decide (lemmas = [])
              then (shown_before_line_99 remove_stopwords
                      ++ [(Warning, NO_PROCESSABLE_WORDS)], ReturnNone 101)
              else
                let stage := spell_checking W language_details enable_spellcheck lemmas in
                match ending stage with
                | Next meaningful_lemmas =>
                    if bool_decide (meaningful_lemmas = [])
                    then (shown_before_line_99 remove_stopwords ++ shown stage
                            ++ [(Warning, NO_WORDS_REMAINED)], ReturnNone 144)
                    else (shown_before_line_99 remove_stopwords ++ shown stage,
                          Next (frequency_table meaningful_lemmas))
                | ReturnNone line =>
                    (shown_before_line_99 remove_stopwords ++ shown stage, ReturnNone line)
                | Stop => (shown_before_line_99 remove_stopwords ++ shown stage, Stop)
                end
          end
    end.
Proof.
  unfold extract_book_words, load_spacy_model, lemmas_at_line_99,
    stopword_removal, shown_before_line_99, shown, ending.
  cbv [mbind script_bind mret script_ret st_info st_error st_warning emit
       return_None st_stop].
  cbn [fst snd app].
  destruct (fitz_open W pdf_bytes) as [e|doc]; cbn [fst snd app]; [done|].
  case_bool_decide; cbn [fst snd app]; [done|].
  destruct (spacy_load W (spacy language_details)) as [nlp|];
    cbn [fst snd app]; [|done].
  destruct remove_stopwords; cbn [fst snd app].
  - case_bool_decide; cbn [fst snd app]; [done|].
    destruct (spell_checking _ _ _ _) as [evs [m| |]]; cbn [fst snd app]; [|done..].
    case_bool_decide; cbn [fst snd app]; [done|by rewrite app_nil_r].
  - case_bool_decide; cbn [fst snd app]; [done|].
    destruct (spell_checking _ _ _ _) as [evs [m| |]]; cbn [fst snd app]; [|done..].
    case_bool_decide; cbn [fst snd app]; [done|by rewrite app_nil_r].
Qed.

Lemma warnings_in_app (events1 events2 : list event) :
  warnings_in (events1 ++ events2) = warnings_in events1 ++ warnings_in events2.
Proof. unfold warnings_in. by rewrite filter_app, fmap_app. Qed.

Lemma warnings_before_line_99 remove_stopwords :
  warnings_in (shown_before_line_99 remove_stopwords) = [].
Proof. by destruct remove_stopwords. Qed.

(** A run that gets past line 99 returns a table. *)
Lemma extract_book_words_past_line_99 pdf_bytes language_details
    (remove_stopwords enable_spellcheck : bool) doc nlp :
  fitz_open W pdf_bytes = inr doc →
  strip (concat doc) ≠ [] →
  spacy_load W (spacy language_details) = Some nlp →
  lemmas_at_line_99 nlp remove_stopwords (concat doc) ≠ [] →
  let stage := spell_checking W language_details enable_spellcheck
                 (lemmas_at_line_99 nlp remove_stopwords (concat doc)) in
  ∃ meaningful_lemmas,
    meaningful_lemmas ≠ []
    ∧ ending stage = Next meaningful_lemmas
    ∧ extract_book_words W pdf_bytes language_details remove_stopwords enable_spellcheck
      = (shown_before_line_99 remove_stopwords ++ shown stage,
         Next (frequency_table meaningful_lemmas)).
Proof.
  intros Hdoc Htext Hnlp Hlemmas stage. subst stage.
  destruct (spell_checking_nonempty W language_details enable_spellcheck _ Hlemmas)
    as [m [Hm Hne]].
  exists m. split_and!; [done..|].
  rewrite extract_book_words_branches, Hdoc, Hnlp.
  rewrite !bool_decide_eq_false_2 by done. cbn zeta.
  rewrite Hm. by rewrite !bool_decide_eq_false_2.
Qed.

(** A table comes from a run that got past line 99. *)
Lemma extract_book_words_table pdf_bytes language_details
    (remove_stopwords enable_spellcheck : bool) df :
  ending (extract_book_words W pdf_bytes language_details
            remove_stopwords enable_spellcheck) = Next df →
  ∃ doc nlp meaningful_lemmas,
    fitz_open W pdf_bytes = inr doc
    ∧ strip (concat doc) ≠ []
    ∧ spacy_load W (spacy language_details) = Some nlp
    ∧ lemmas_at_line_99 nlp remove_stopwords (concat doc) ≠ []
    ∧ ending (spell_checking W language_details enable_spellcheck
                (lemmas_at_line_99 nlp remove_stopwords (concat doc)))
      = Next meaningful_lemmas
    ∧ meaningful_lemmas ≠ []
    ∧ df = frequency_table meaningful_lemmas.
Proof.
  rewrite extract_book_words_branches.
  destruct (fitz_open W pdf_bytes) as [e|doc]; [done|].
  case_bool_decide as Htext; [done|].
  destruct (spacy_load W (spacy language_details)) as [nlp|]; [|done].
  cbn zeta. case_bool_decide as Hlemmas; [done|].
  destruct (ending (spell_checking _ _ _ _)) as [m| |] eqn:Hm; [|done..].
  case_bool_decide as Hne; [done|].
  intros [= <-]. by exists doc, nlp, m.
Qed.
End Runs.

Section Claims.
Context `{Unicode}.
Variable W : World.
Implicit Types (language_details : LanguageDetails) (pdf_bytes : bytes).

(** C2. When the dictionary knows none of the lemmas that reach the
    dictionary stage, the stage hands on the sequence it was given,
    the table is built from that sequence, and the run shows one
    warning, the one of the fallback. *)
Theorem dictionary_fallback pdf_bytes language_details (remove_stopwords : bool)
    doc nlp lemmas code dictionary_words :
  fitz_open W pdf_bytes = inr doc →
  strip (concat doc) ≠ [] →
  spacy_load W (spacy language_details) = Some nlp →
  lemmas_at_line_99 nlp remove_stopwords (concat doc) = lemmas →
  lemmas ≠ [] →
  truthy_code (spellchecker language_details) = Some code →
  dictionary_lookup W code lemmas = inr dictionary_words →
  Forall (λ lemma, lemma ∉ dictionary_words) lemmas →
  let run := extract_book_words W pdf_bytes language_details remove_stopwords true in
  ending (spell_checking W language_details true lemmas) = Next lemmas
  ∧ ending run = Next (frequency_table lemmas)
  ∧ warnings run = [FILTERED_OUT_ALL code].
Proof.
  intros Hdoc Htext Hnlp <- Hlemmas Hcode Hdict Hnone run.
  rewrite Forall_forall in Hnone.
  pose proof (spell_checking_fallback W _ _ _ _ Hcode Hdict Hlemmas Hnone) as Hstage.
  destruct (extract_book_words_past_line_99 W pdf_bytes language_details
              remove_stopwords true doc nlp Hdoc Htext Hnlp Hlemmas)
    as [m [_ [Hm Hrun]]].
  subst run. rewrite Hrun, Hstage in *.
  injection Hm as <-. split_and!; [done..|].
  unfold warnings, shown. cbn [fst].
  by rewrite warnings_in_app, warnings_before_line_99.
Qed.

(** C8. When creating the spell checker or asking it for the known
    words raises, the run goes on with the sequence it had: the
    table is built from it, the exception is shown as the one
    warning of the run, and no error is shown. *)
Theorem dictionary_error_is_not_fatal pdf_bytes language_details
    (remove_stopwords : bool) doc nlp lemmas code e :
  fitz_open W pdf_bytes = inr doc →
  strip (concat doc) ≠ [] →
  spacy_load W (spacy language_details) = Some nlp →
  lemmas_at_line_99 nlp remove_stopwords (concat doc) = lemmas →
  lemmas ≠ [] →
  truthy_code (spellchecker language_details) = Some code →
  dictionary_lookup W code lemmas = inl e →
  let run := extract_book_words W pdf_bytes language_details remove_stopwords true in
  ending (spell_checking W language_details true lemmas) = Next lemmas
  ∧ ending run = Next (frequency_table lemmas)
  ∧ warnings run = [COULD_NOT_APPLY code e]
  ∧ (∀ msg, (Error, msg) ∉ shown run).
Proof.
  intros Hdoc Htext Hnlp <- Hlemmas Hcode Hdict run.
  pose proof (spell_checking_error W _ _ _ _ Hcode Hdict) as Hstage.
  destruct (extract_book_words_past_line_99 W pdf_bytes language_details
              remove_stopwords true doc nlp Hdoc Htext Hnlp Hlemmas)
    as [m [_ [Hm Hrun]]].
  subst run. rewrite Hrun, Hstage in *.
  injection Hm as <-. split_and!; [done..| |].
  - unfold warnings, shown. cbn [fst].
    by rewrite warnings_in_app, warnings_before_line_99.
  - intros msg. unfold shown, shown_before_line_99. cbn [fst].
    destruct remove_stopwords; cbn [app]; not_shown.
Qed.

(** C9. With dictionary filtering requested for a language that has
    no spell-checker code, the stage hands on the sequence it was
    given, the table is built from it, the note that the stage is
    skipped is shown as information, and the run shows no
    warning. *)
Theorem no_dictionary_is_skipped pdf_bytes language_details
    (remove_stopwords : bool) doc nlp lemmas :
  fitz_open W pdf_bytes = inr doc →
  strip (concat doc) ≠ [] →
  spacy_load W (spacy language_details) = Some nlp →
  lemmas_at_line_99 nlp remove_stopwords (concat doc) = lemmas →
  lemmas ≠ [] →
  spellchecker language_details = None →
  let run := extract_book_words W pdf_bytes language_details remove_stopwords true in
  ending (spell_checking W language_details true lemmas) = Next lemmas
  ∧ ending run = Next (frequency_table lemmas)
  ∧ (Info, SKIPPING) ∈ shown run
  ∧ warnings run = [].
Proof.
  intros Hdoc Htext Hnlp <- Hlemmas Hcode run.
  pose proof (spell_checking_skipped W _
                (lemmas_at_line_99 nlp remove_stopwords (concat doc)) Hcode)
    as Hstage.
  destruct (extract_book_words_past_line_99 W pdf_bytes language_details
              remove_stopwords true doc nlp Hdoc Htext Hnlp Hlemmas)
    as [m [_ [Hm Hrun]]].
  subst run. rewrite Hrun, Hstage in *.
  injection Hm as <-. split_and!; [done..| |].
  - unfold shown. cbn [fst]. apply elem_of_app. right. left.
  - unfold warnings, shown. cbn [fst].
    by rewrite warnings_in_app, warnings_before_line_99.
Qed.

(** C10. The test of line 142 never succeeds: no run ends with the
    [return None] of line 144 or shows its warning, because the
    dictionary stage hands on a non-empty sequence whenever it is
    given one, and line 99 lets only non-empty sequences through. *)
Theorem no_words_remained_is_unreachable pdf_bytes language_details
    (remove_stopwords enable_spellcheck : bool) :
  let run := extract_book_words W pdf_bytes language_details
               remove_stopwords enable_spellcheck in
  ending run ≠ ReturnNone 144
  ∧ ((Warning, NO_WORDS_REMAINED) ∉ shown run)
  ∧ (∀ lemmas : list str, lemmas ≠ [] →
       ∃ meaningful_lemmas,
         ending (spell_checking W language_details enable_spellcheck lemmas)
         = Next meaningful_lemmas ∧ meaningful_lemmas ≠ []).
Proof.
  intros run. subst run. split_and!;
    [| |by apply spell_checking_nonempty].
  - rewrite extract_book_words_branches.
    destruct (fitz_open W pdf_bytes) as [e|doc]; [done|].
    case_bool_decide as Htext; [done|].
    destruct (spacy_load W (spacy language_details)) as [nlp|]; [|done].
    cbn zeta. case_bool_decide as Hlemmas; [done|].
    destruct (spell_checking_nonempty W language_details enable_spellcheck
                _ Hlemmas) as [m [-> Hm]].
    by rewrite bool_decide_eq_false_2.
  - rewrite extract_book_words_branches. unfold shown at 1.
    destruct (fitz_open W pdf_bytes) as [e|doc]; [cbn [fst]; not_shown|].
    case_bool_decide as Htext; [cbn [fst]; not_shown|].
    destruct (spacy_load W (spacy language_details)) as [nlp|] eqn:Hnlp.
    + cbn zeta. case_bool_decide as Hlemmas.
      { destruct remove_stopwords; cbn [fst app shown_before_line_99]; not_shown. }
      destruct (spell_checking_nonempty W language_details enable_spellcheck
                  _ Hlemmas) as [m [-> Hm]].
      rewrite bool_decide_eq_false_2 by done. cbn [fst].
      apply not_elem_of_app. split; [|apply spell_checking_shown].
      destruct remove_stopwords; cbn [app shown_before_line_99]; not_shown.
    + unfold load_spacy_model. rewrite Hnlp. cbn. not_shown.
Qed.

Lemma basic_filter_empty nlp (remove_stopwords : bool) raw_text :
  basic_filter (nlp_call nlp (cleaned_text raw_text)) = [] →
  lemmas_at_line_99 nlp remove_stopwords raw_text = [].
Proof.
  unfold lemmas_at_line_99. intros ->. by destruct remove_stopwords.
Qed.

(** C7, as the code has it. A run that finds its text or its lemma
    sequence empty ends with [return None] after one warning. The
    warning is the one of its test: there is one for the text, one
    shared by basic filtering and stopword removal, and one for the
    end of the processing; a warning tells the tests apart, not the
    two stages that share one. *)
Theorem empty_stage_outcome pdf_bytes language_details
    (remove_stopwords enable_spellcheck : bool) stage :
  first_empty_stage W pdf_bytes language_details remove_stopwords enable_spellcheck
  = Some stage →
  let run := extract_book_words W pdf_bytes language_details
               remove_stopwords enable_spellcheck in
  ending run = ReturnNone (stage_return_line stage)
  ∧ warnings run = [stage_message stage]
  ∧ (∀ stage', stage_message stage' = stage_message stage →
               stage_return_line stage' = stage_return_line stage).
Proof.
  intros Hstage run. subst run. split_and!;
    [| |by destruct stage, stage'].
  - revert Hstage. unfold first_empty_stage.
    rewrite extract_book_words_branches.
    destruct (fitz_open W pdf_bytes) as [e|doc]; [done|]. cbn zeta.
    case_bool_decide as Htext; [by intros [= <-]|].
    destruct (spacy_load W (spacy language_details)) as [nlp|]; [|done].
    case_bool_decide as Hbasic.
    { intros [= <-]. by rewrite (basic_filter_empty _ _ _ Hbasic). }
    case_bool_decide as Hlemmas; [by intros [= <-]|].
    destruct (spell_checking_nonempty W language_details enable_spellcheck
                _ Hlemmas) as [m [-> Hm]].
    by destruct m.
  - revert Hstage. unfold first_empty_stage, warnings.
    rewrite extract_book_words_branches. unfold shown at 1.
    destruct (fitz_open W pdf_bytes) as [e|doc]; [done|]. cbn zeta.
    case_bool_decide as Htext; [by intros [= <-]|].
    destruct (spacy_load W (spacy language_details)) as [nlp|]; [|done].
    case_bool_decide as Hbasic.
    { intros [= <-]. rewrite (basic_filter_empty _ _ _ Hbasic).
      rewrite bool_decide_eq_true_2 by done. cbn [fst].
      by rewrite warnings_in_app, warnings_before_line_99. }
    case_bool_decide as Hlemmas.
    { intros [= <-]. cbn [fst].
      by rewrite warnings_in_app, warnings_before_line_99. }
    destruct (spell_checking_nonempty W language_details enable_spellcheck
                _ Hlemmas) as [m [-> Hm]].
    by destruct m.
Qed.

(** C5. In the table a run returns, a row never has a smaller count
    than the row after it. *)
Theorem display_order_by_count pdf_bytes language_details
    (remove_stopwords enable_spellcheck : bool) df (i : nat) row1 row2 :
  ending (extract_book_words W pdf_bytes language_details
            remove_stopwords enable_spellcheck) = Next df →
  df !! i = Some row1 →
  df !! S i = Some row2 →
  (row1.2 ≥ row2.2)%nat.
Proof.
  intros (doc & nlp & m & _ & _ & _ & _ & _ & _ & ->)%extract_book_words_table.
  apply Sorted_consecutive, sort_values_Sorted.
Qed.
End Claims.

(** C6. The counts of the table built from a sequence of lemmas add
    up to the length of the sequence, and no word is the key of two
    rows. *)
Theorem frequency_table_counts (meaningful_lemmas : list str) :
  sum_list (frequency_table meaningful_lemmas).*2 = length meaningful_lemmas
  ∧ NoDup (frequency_table meaningful_lemmas).*1.
Proof.
  unfold frequency_table.
  destruct (Counter_items_from [] meaningful_lemmas) as [Hnd Hsum].
  rewrite sort_values_Permutation. split.
  - apply Hsum.
  - apply Hnd, NoDup_nil_2.
Qed.

(** ** The keys of the table *)

Lemma Counter_items_keys (counter : list (str * nat)) (words : list str) (word : str) :
  word ∈ (foldl (λ counter word, counter_add word counter) counter words).*1
  ↔ word ∈ counter.*1 ∨ word ∈ words.
Proof.
  revert counter. induction words as [|w words IH]; intros counter; simpl.
  - rewrite elem_of_nil. tauto.
  - rewrite IH, counter_add_keys, elem_of_cons.
    case_decide; [|rewrite elem_of_app, list_elem_of_singleton];
      intuition (subst; auto).
Qed.

Lemma frequency_table_keys (meaningful_lemmas : list str) (word : str) :
  word ∈ (frequency_table meaningful_lemmas).*1 ↔ word ∈ meaningful_lemmas.
Proof.
  unfold frequency_table, Counter_items.
  rewrite sort_values_Permutation, Counter_items_keys, elem_of_nil.
  tauto.
Qed.

(** What lines 87-97 and 106-139 do guarantee of a key of the table:
    it is the lower-cased lemma of a token that spaCy calls alphabetic
    and whose lemma has more than one code point; it is no stopword
    when stopwords are removed; and it is a word of the dictionary
    when the filtered sequence is adopted. *)
Lemma table_keys_come_from_tokens `{Unicode} (W : World) pdf_bytes language_details
    (remove_stopwords enable_spellcheck : bool) df word :
  ending (extract_book_words W pdf_bytes language_details
            remove_stopwords enable_spellcheck) = Next df →
  word ∈ df.*1 →
  ∃ doc nlp token,
    fitz_open W pdf_bytes = inr doc
    ∧ spacy_load W (spacy language_details) = Some nlp
    ∧ token ∈ nlp_call nlp (cleaned_text (concat doc))
    ∧ is_alpha token = true
    ∧ (1 < length (lemma_ token))%nat
    ∧ word = lower (lemma_ token)
    ∧ (remove_stopwords = true → word ∉ stop_words nlp)
    ∧ (∀ code dictionary_words,
         enable_spellcheck = true →
         truthy_code (spellchecker language_details) = Some code →
         dictionary_lookup W code
           (lemmas_at_line_99 nlp remove_stopwords (concat doc))
         = inr dictionary_words →
         filter (λ lemma, lemma ∈ dictionary_words)
           (lemmas_at_line_99 nlp remove_stopwords (concat doc)) ≠ [] →
         word ∈ dictionary_words).
Proof.
  intros (doc & nlp & m & Hdoc & _ & Hnlp & _ & Hm & _ & ->)%extract_book_words_table.
  rewrite frequency_table_keys. intros Hword.
  set (lemmas := lemmas_at_line_99 nlp remove_stopwords (concat doc)) in *.
  assert (word ∈ lemmas
          ∧ ∀ code dictionary_words,
              enable_spellcheck = true →
              truthy_code (spellchecker language_details) = Some code →
              dictionary_lookup W code lemmas = inr dictionary_words →
              filter (λ lemma, lemma ∈ dictionary_words) lemmas ≠ [] →
              word ∈ dictionary_words) as [Hlemma Hdict].
  { destruct (spell_checking_paths W language_details enable_spellcheck lemmas)
      as [Hoff|Hon Hc|c e Hon Hc Hd|c d Hon Hc Hd Hne Hcur|c d Hon Hc Hd Hcur];
      cbn in Hm; injection Hm as <-.
    - split; [done|]. intros ? ? Hon. by rewrite Hoff in Hon.
    - split; [done|]. intros ? ? _ Hc'. by rewrite Hc in Hc'.
    - split; [done|]. intros ? ? _ Hc' Hd'. rewrite Hc in Hc'.
      injection Hc' as <-. by rewrite Hd in Hd'.
    - split; [done|]. intros ? ? _ Hc' Hd' Hcur'. rewrite Hc in Hc'.
      injection Hc' as <-. rewrite Hd in Hd'. injection Hd' as <-. done.
    - apply list_elem_of_filter in Hword as [Hin Hword]. split; [done|].
      intros ? ? _ Hc' Hd' _. rewrite Hc in Hc'.
      injection Hc' as <-. rewrite Hd in Hd'. by injection Hd' as <-. }
  assert (word ∈ basic_filter (nlp_call nlp (cleaned_text (concat doc)))
          ∧ (remove_stopwords = true → word ∉ stop_words nlp)) as [Hbasic Hstop].
  { subst lemmas. unfold lemmas_at_line_99 in Hlemma.
    destruct remove_stopwords; [|done].
    by apply list_elem_of_filter in Hlemma as [Hstop Hlemma]. }
  unfold basic_filter in Hbasic.
  apply list_elem_of_fmap in Hbasic as (token & -> & Htoken).
  apply list_elem_of_filter in Htoken as [Hguard Htoken].
  apply andb_prop_elim in Hguard as [Halpha Hlen%bool_decide_unpack].
  exists doc, nlp, token. split_and!; try done.
  by apply Is_true_eq_true.
Qed.

(** C1 at a document whose only word is İstanbul. The token is
    alphabetic and has eight code points, so its lemma is kept; the
    key of the table is the lower-cased lemma, whose second code point
    is the combining dot U+0307, and it is not alphabetic. *)
Theorem key_of_table_not_alphabetic :
  let run := @extract_book_words sample_unicode world_Istanbul
               [] English false false in
  ending run = Next [(@lower sample_unicode Istanbul, 1%nat)]
  ∧ is_alpha (toy_token Istanbul) = true
  ∧ lemma_ (toy_token Istanbul) = Istanbul
  ∧ @str_isalpha sample_unicode (@lower sample_unicode Istanbul) = false.
Proof. by vm_compute. Qed.

(** ** The claims at concrete runs *)

(** The end-to-end scenario: stopwords removed, no dictionary
    filtering, English profile. *)
Example end_to_end_scenario :
  @extract_book_words sample_unicode world_cat [] English true false
  = ([(Info, "Reading PDF file..."); (Info, "Cleaning and processing text...");
      (Info, "Removing stopwords...")]%string,
     Next [(text "cat", 2%nat); (text "sit", 1%nat);
           (text "mat", 1%nat); (text "run", 1%nat)]).
Proof. by vm_compute. Qed.

Example English_profile : language_details_of "English" = Some English.
Proof. by vm_compute. Qed.

Example Catalan_profile : language_details_of "Catalan (Català)" = Some Catalan.
Proof. by vm_compute. Qed.

(** C4 as stated fails on a letter, a tab and a letter: the cleaned
    text has the space U+0020, which the input does not have. *)
Lemma cleaned_text_introduces_space :
  ¬ (∀ c : char, c ∈ @cleaned_text sample_unicode [97; 9; 98] → c ∈ [97; 9; 98]).
Proof.
  intros Hall. specialize (Hall 32).
  assert (32 ∉ [97; 9; 98]) as Hnot by compute_done.
  apply Hnot, Hall. compute_done.
Qed.

Lemma cleaned_text_chars_witness :
  32 ∈ [97; 9; 98] ∨ (32 = 32 ∧ ∃ d : char, d ∈ [97; 9; 98] ∧ isspace d = true).
Proof.
  refine (@cleaned_text_chars sample_unicode [97; 9; 98] 32 _).
  compute_done.
Defined.

(** C7 as stated fails on two documents: one has digits only and
    loses every token to the basic filter, the other has one stopword
    and loses it to stopword removal; both runs show the same
    warning and end at the same line. *)
Lemma one_warning_for_two_stages :
  @first_empty_stage sample_unicode world_digits [] English false false
  = Some AfterBasicFiltering
  ∧ @first_empty_stage sample_unicode world_the [] English true false
    = Some AfterStopwordRemoval
  ∧ warnings (@extract_book_words sample_unicode world_digits [] English false false)
    = warnings (@extract_book_words sample_unicode world_the [] English true false)
  ∧ ending (@extract_book_words sample_unicode world_digits [] English false false)
    = ending (@extract_book_words sample_unicode world_the [] English true false).
Proof. by vm_compute. Qed.

Lemma empty_stage_outcome_witness :
  let run := @extract_book_words sample_unicode world_the [] English true false in
  ending run = ReturnNone (stage_return_line AfterStopwordRemoval)
  ∧ warnings run = [stage_message AfterStopwordRemoval]
  ∧ (∀ stage', stage_message stage' = stage_message AfterStopwordRemoval →
               stage_return_line stage' = stage_return_line AfterStopwordRemoval).
Proof.
  refine (@empty_stage_outcome sample_unicode world_the [] English true false
            AfterStopwordRemoval _).
  compute_done.
Defined.

Lemma dictionary_fallback_witness :
  let run := @extract_book_words sample_unicode world_unknown_words [] English true true in
  ending (spell_checking world_unknown_words English true cat_lemmas) = Next cat_lemmas
  ∧ ending run = Next (frequency_table cat_lemmas)
  ∧ warnings run = [FILTERED_OUT_ALL "en"].
Proof.
  refine (@dictionary_fallback sample_unicode world_unknown_words [] English true
            [cat_text] toy_nlp cat_lemmas "en"
            ({[ text "dog" ]} ∩ list_to_set cat_lemmas) _ _ _ _ _ _ _ _);
    compute_done.
Defined.

Lemma dictionary_error_is_not_fatal_witness :
  let e := "The provided dictionary language (en) does not exist!"%string in
  let run := @extract_book_words sample_unicode world_no_dictionary [] English true true in
  ending (spell_checking world_no_dictionary English true cat_lemmas) = Next cat_lemmas
  ∧ ending run = Next (frequency_table cat_lemmas)
  ∧ warnings run = [COULD_NOT_APPLY "en" e]
  ∧ (∀ msg, (Error, msg) ∉ shown run).
Proof.
  refine (@dictionary_error_is_not_fatal sample_unicode world_no_dictionary [] English
            true [cat_text] toy_nlp cat_lemmas "en" _ _ _ _ _ _ _ _);
    compute_done.
Defined.

Lemma no_dictionary_is_skipped_witness :
  let run := @extract_book_words sample_unicode world_cat [] Catalan true true in
  ending (spell_checking world_cat Catalan true cat_lemmas) = Next cat_lemmas
  ∧ ending run = Next (frequency_table cat_lemmas)
  ∧ (Info, SKIPPING) ∈ shown run
  ∧ warnings run = [].
Proof.
  refine (@no_dictionary_is_skipped sample_unicode world_cat [] Catalan
            true [cat_text] toy_nlp cat_lemmas _ _ _ _ _ _);
    compute_done.
Defined.

Lemma display_order_by_count_witness :
  ((text "cat", 2%nat).2 ≥ (text "sit", 1%nat).2)%nat.
Proof.
  refine (@display_order_by_count sample_unicode world_cat [] English true false
            [(text "cat", 2%nat); (text "sit", 1%nat);
             (text "mat", 1%nat); (text "run", 1%nat)]
            0%nat (text "cat", 2%nat) (text "sit", 1%nat) _ _ _);
    compute_done.
Defined.

(** * More of the code *)

(** ** What the rows of the table say *)

Lemma occurrences_cons (word w : str) (words : list str) :
  occurrences word (w :: words)
  = ((if decide (w = word) then 1 else 0) + occurrences word words)%nat.
Proof.
  unfold occurrences. rewrite filter_cons. by case_decide.
Qed.

Lemma occurrences_positive (word : str) (words : list str) :
  word ∈ words ↔ (0 < occurrences word words)%nat.
Proof.
  induction words as [|w words IH].
  - rewrite elem_of_nil. unfold occurrences. simpl. lia.
  - rewrite occurrences_cons, elem_of_cons, IH.
    case_decide as Hw; split; try lia; [by left|].
    intros [->|Hin]; [done|lia].
Qed.

Lemma counter_get_add (word w : str) (counter : list (str * nat)) :
  counter_get word (counter_add w counter)
  = (counter_get word counter + if decide (w = word) then 1 else 0)%nat.
Proof.
  induction counter as [|[w' n] counter IH]; simpl.
  - case_decide; lia.
  - destruct (decide (w' = w)) as [->|Hne]; simpl.
    + case_decide; lia.
    + destruct (decide (w' = word)) as [->|Hne'].
      * rewrite decide_False by done. lia.
      * apply IH.
Qed.

Lemma counter_get_foldl (word : str) (counter : list (str * nat)) (words : list str) :
  counter_get word (foldl (λ counter word, counter_add word counter) counter words)
  = (counter_get word counter + occurrences word words)%nat.
Proof.
  revert counter. induction words as [|w words IH]; intros counter; simpl.
  - unfold occurrences. simpl. lia.
  - rewrite IH, counter_get_add, occurrences_cons. lia.
Qed.

Lemma counter_get_missing (word : str) (counter : list (str * nat)) :
  word ∉ counter.*1 → counter_get word counter = 0%nat.
Proof.
  induction counter as [|[w n] counter IH]; [done|].
  rewrite fmap_cons, not_elem_of_cons. intros [Hne Hnotin]. simpl.
  rewrite decide_False by done. by apply IH.
Qed.

Lemma counter_get_row (word : str) (n : nat) (counter : list (str * nat)) :
  NoDup counter.*1 →
  (word, n) ∈ counter ↔ word ∈ counter.*1 ∧ counter_get word counter = n.
Proof.
  induction counter as [|[w m] counter IH]; intros Hnd.
  - rewrite !elem_of_nil. tauto.
  - rewrite fmap_cons in Hnd. apply NoDup_cons in Hnd as [Hw Hnd].
    rewrite fmap_cons, !elem_of_cons, (IH Hnd). simpl.
    destruct (decide (w = word)) as [->|Hne]; split.
    + intros [[= <-]|[Hin _]]; [by split; [left|]|done].
    + intros [_ <-]. by left.
    + intros [[= <- _]|[Hin Hget]]; [done|]. split; [by right|done].
    + intros [[->|Hin] Hget]; [done|]. right. by split.
Qed.

Lemma Counter_items_row (words : list str) (word : str) (n : nat) :
  (word, n) ∈ Counter_items words
  ↔ (0 < n)%nat ∧ n = occurrences word words.
Proof.
  unfold Counter_items.
  destruct (Counter_items_from [] words) as [Hnd _].
  rewrite counter_get_row by (apply Hnd, NoDup_nil_2).
  rewrite Counter_items_keys, counter_get_foldl, elem_of_nil, occurrences_positive.
  simpl. split; [intros [[[]|Hpos] <-]|intros [Hpos ->]]; [done|].
  split; [by right|done].
Qed.

Lemma Counter_items_NoDup (words : list str) : NoDup (Counter_items words).
Proof.
  apply (NoDup_fmap_1 fst), (Counter_items_from [] words), NoDup_nil_2.
Qed.

(** A row of the table gives a word of the sequence and the number
    of its occurrences, which is at least one; and every word of the
    sequence has its row. *)
Theorem frequency_table_rows (meaningful_lemmas : list str) (word : str) (n : nat) :
  (word, n) ∈ frequency_table meaningful_lemmas
  ↔ (0 < n)%nat ∧ n = occurrences word meaningful_lemmas.
Proof.
  unfold frequency_table. rewrite sort_values_Permutation.
  apply Counter_items_row.
Qed.

(** The table of a sequence and the table of the same lemmas in
    another order have the same rows. *)
Theorem frequency_table_Permutation (lemmas1 lemmas2 : list str) :
  lemmas1 ≡ₚ lemmas2 →
  frequency_table lemmas1 ≡ₚ frequency_table lemmas2.
Proof.
  intros Hperm. unfold frequency_table. rewrite !sort_values_Permutation.
  apply NoDup_Permutation; [apply Counter_items_NoDup..|].
  intros [word n]. rewrite !Counter_items_row.
  unfold occurrences. by rewrite Hperm.
Qed.

(** ** The order of all the rows *)

#[local] Instance by_count_descending_transitive : Transitive by_count_descending.
Proof. intros row1 row2 row3. unfold by_count_descending. lia. Qed.

Lemma StronglySorted_rows (df : DataFrame) (i j : nat) row1 row2 :
  StronglySorted by_count_descending df →
  (i < j)%nat → df !! i = Some row1 → df !! j = Some row2 →
  by_count_descending row1 row2.
Proof.
  intros Hdf. revert i j.
  induction Hdf as [|row df Hdf IH Hall]; intros i j Hij; [done|].
  destruct j as [|j]; [lia|]. destruct i as [|i]; simpl.
  - intros [= ->] Hj. eapply Forall_forall in Hall; [done|].
    by eapply list_elem_of_lookup_2.
  - apply IH. lia.
Qed.

Lemma frequency_table_nonempty (meaningful_lemmas : list str) :
  meaningful_lemmas ≠ [] → frequency_table meaningful_lemmas ≠ [].
Proof.
  destruct meaningful_lemmas as [|word m]; [done|]. intros _ Hempty.
  assert ((word, occurrences word (word :: m)) ∈ frequency_table (word :: m)) as Hrow.
  { unfold frequency_table. rewrite sort_values_Permutation.
    apply Counter_items_row. split; [|done].
    apply occurrences_positive. by left. }
  rewrite Hempty in Hrow. by apply elem_of_nil in Hrow.
Qed.

Section MoreRuns.
Context `{Unicode}.
Variable W : World.
Implicit Types (language_details : LanguageDetails) (pdf_bytes : bytes).

(** In the table a run returns, a row has a count at least as large
    as that of any row below it, so the first row holds a most
    frequent word. *)
Theorem rows_ordered_by_count pdf_bytes language_details
    (remove_stopwords enable_spellcheck : bool) df (i j : nat) row1 row2 :
  ending (extract_book_words W pdf_bytes language_details
            remove_stopwords enable_spellcheck) = Next df →
  (i < j)%nat →
  df !! i = Some row1 →
  df !! j = Some row2 →
  (row1.2 ≥ row2.2)%nat.
Proof.
  intros (doc & nlp & m & _ & _ & _ & _ & _ & _ & ->)%extract_book_words_table.
  apply StronglySorted_rows, Sorted_StronglySorted, sort_values_Sorted.
  apply _.
Qed.

(** A table that a run returns has at least one row, and every count
    in it is at least one. *)
Theorem returned_table_has_rows pdf_bytes language_details
    (remove_stopwords enable_spellcheck : bool) df :
  ending (extract_book_words W pdf_bytes language_details
            remove_stopwords enable_spellcheck) = Next df →
  df ≠ [] ∧ Forall (λ row, 1 ≤ row.2)%nat df.
Proof.
  intros (doc & nlp & m & _ & _ & _ & _ & _ & Hm & ->)%extract_book_words_table.
  split; [by apply frequency_table_nonempty|].
  apply Forall_forall. intros [word n]. unfold frequency_table.
  rewrite sort_values_Permutation. intros Hrow%Counter_items_row. simpl. lia.
Qed.

(** The dictionary stage hands on a subsequence of what it is given:
    it never adds a lemma, reorders lemmas or repeats one. *)
Theorem spell_checking_sublist language_details (enable_spellcheck : bool)
    (lemmas : list str) :
  ∃ meaningful_lemmas,
    ending (spell_checking W language_details enable_spellcheck lemmas)
    = Next meaningful_lemmas
    ∧ meaningful_lemmas `sublist_of` lemmas.
Proof.
  destruct (spell_checking_paths W language_details enable_spellcheck lemmas);
    eexists; (split; [done|]); try done.
  apply sublist_filter.
Qed.

(** The counts of a returned table add up to no more than the number
    of tokens the analyzer made of the cleaned text. *)
Theorem table_total_at_most_tokens pdf_bytes language_details
    (remove_stopwords enable_spellcheck : bool) df :
  ending (extract_book_words W pdf_bytes language_details
            remove_stopwords enable_spellcheck) = Next df →
  ∃ doc nlp,
    fitz_open W pdf_bytes = inr doc
    ∧ spacy_load W (spacy language_details) = Some nlp
    ∧ (sum_list df.*2 ≤ length (nlp_call nlp (cleaned_text (concat doc))))%nat.
Proof.
  intros (doc & nlp & m & Hdoc & _ & Hnlp & _ & Hm & _ & ->)%extract_book_words_table.
  exists doc, nlp. split_and!; [done..|].
  assert (length m ≤ length (lemmas_at_line_99 nlp remove_stopwords (concat doc)))%nat
    as Hsub.
  { destruct (spell_checking_paths W language_details enable_spellcheck
                (lemmas_at_line_99 nlp remove_stopwords (concat doc)));
      cbn in Hm; injection Hm as <-; try done. apply length_filter. }
  unfold frequency_table, Counter_items. rewrite sort_values_Permutation.
  destruct (Counter_items_from [] m) as [_ ->]. simpl.
  etrans; [exact Hsub|].
  unfold lemmas_at_line_99, basic_filter. destruct remove_stopwords.
  - etrans; [apply length_filter|]. rewrite length_fmap. apply length_filter.
  - rewrite length_fmap. apply length_filter.
Qed.
End MoreRuns.

(** ** Warnings and errors of a run *)

Ltac not_among :=
  rewrite ?not_elem_of_app, ?not_elem_of_cons; split_and?;
  first [apply not_elem_of_nil | discriminate | by intros [= ?]].

(** The three facts of a branch whose events are written out. *)
Ltac settle_messages :=
  vm_compute; repeat split; intros;
  first [ reflexivity | discriminate | by left | by right
        | exfalso; auto; fail
        | match goal with Hway : _ ∨ _ |- _ => destruct Hway; discriminate end ].

Section Messages.
Context `{Unicode}.
Variable W : World.
Implicit Types (language_details : LanguageDetails) (pdf_bytes : bytes).

Lemma shown_pair {A} (events : list event) (way : flow A) :
  shown (events, way) = events.
Proof. done. Qed.

Lemma ending_pair {A} (events : list event) (way : flow A) :
  ending (events, way) = way.
Proof. done. Qed.

Lemma errors_in_app (events1 events2 : list event) :
  errors_in (events1 ++ events2) = errors_in events1 ++ errors_in events2.
Proof. unfold errors_in. by rewrite filter_app, fmap_app. Qed.

Lemma errors_before_line_99 (remove_stopwords : bool) :
  errors_in (shown_before_line_99 remove_stopwords) = [].
Proof. by destruct remove_stopwords. Qed.

Lemma spell_checking_messages language_details (enable_spellcheck : bool)
    (lemmas : list str) :
  let stage := spell_checking W language_details enable_spellcheck lemmas in
  (length (warnings_in (shown stage)) ≤ 1)%nat
  ∧ errors_in (shown stage) = []
  ∧ (∀ code, (Warning, NONE_IN_DICTIONARY code) ∉ shown stage).
Proof.
  intros stage. subst stage.
  destruct (spell_checking_paths W language_details enable_spellcheck lemmas);
    unfold shown; cbn [fst]; (split_and!; [vm_compute; lia|done|]);
    intros code'; not_among.
Qed.

(** A run shows at most one warning. *)
Theorem at_most_one_warning pdf_bytes language_details
    (remove_stopwords enable_spellcheck : bool) :
  (length (warnings (extract_book_words W pdf_bytes language_details
                       remove_stopwords enable_spellcheck)) ≤ 1)%nat.
Proof.
  unfold warnings. rewrite extract_book_words_branches. unfold shown at 1.
  destruct (fitz_open W pdf_bytes) as [e|doc]; [vm_compute; lia|].
  case_bool_decide as Htext; [vm_compute; lia|].
  destruct (spacy_load W (spacy language_details)) as [nlp|] eqn:Hnlp.
  - cbn zeta. case_bool_decide as Hlemmas.
    { cbn [fst]. rewrite warnings_in_app, warnings_before_line_99. vm_compute. lia. }
    destruct (spell_checking_nonempty W language_details enable_spellcheck
                _ Hlemmas) as [m [Hm Hne]].
    rewrite Hm, bool_decide_eq_false_2 by done. cbn [fst].
    rewrite warnings_in_app, warnings_before_line_99.
    apply spell_checking_messages.
  - unfold load_spacy_model. rewrite Hnlp. vm_compute. lia.
Qed.

(** A run shows an error exactly when it ends because the PDF cannot
    be opened or because the spaCy model cannot be loaded; it then
    shows no warning, and in every other case it shows no error. *)
Theorem error_shown_iff pdf_bytes language_details
    (remove_stopwords enable_spellcheck : bool) :
  let run := extract_book_words W pdf_bytes language_details
               remove_stopwords enable_spellcheck in
  (errors_in (shown run) ≠ [] ↔ ending run = ReturnNone 65 ∨ ending run = Stop)
  ∧ (errors_in (shown run) ≠ [] → warnings run = []).
Proof.
  intros run. subst run. unfold warnings.
  rewrite extract_book_words_branches.
  destruct (fitz_open W pdf_bytes) as [e|doc]; [settle_messages|].
  case_bool_decide as Htext; [settle_messages|].
  destruct (spacy_load W (spacy language_details)) as [nlp|] eqn:Hnlp.
  - cbn zeta. case_bool_decide as Hlemmas.
    { destruct remove_stopwords; settle_messages. }
    destruct (spell_checking_nonempty W language_details enable_spellcheck
                _ Hlemmas) as [m [Hm Hne]].
    rewrite Hm, bool_decide_eq_false_2 by done.
    rewrite !shown_pair, !ending_pair.
    rewrite errors_in_app, errors_before_line_99.
    destruct (spell_checking_messages language_details enable_spellcheck
                (lemmas_at_line_99 nlp remove_stopwords (concat doc)))
      as (_ & -> & _).
    cbn [app]. split; [split|]; [by intros []|by intros [|]|by intros []].
  - unfold load_spacy_model. rewrite Hnlp. settle_messages.
Qed.

(** The warning of lines 125-128 is never shown: when the dictionary
    knows no word at all, the filtered sequence is empty and the test
    of line 117 has already taken the fallback. *)
Theorem none_in_dictionary_never_shown pdf_bytes language_details
    (remove_stopwords enable_spellcheck : bool) (code : string) :
  (Warning, NONE_IN_DICTIONARY code)
  ∉ shown (extract_book_words W pdf_bytes language_details
             remove_stopwords enable_spellcheck).
Proof.
  rewrite extract_book_words_branches. unfold shown at 1.
  destruct (fitz_open W pdf_bytes) as [e|doc]; [cbn [fst]; not_among|].
  case_bool_decide as Htext; [cbn [fst]; not_among|].
  destruct (spacy_load W (spacy language_details)) as [nlp|] eqn:Hnlp.
  - cbn zeta. case_bool_decide as Hlemmas.
    { destruct remove_stopwords; cbn [fst app shown_before_line_99]; not_among. }
    destruct (spell_checking_nonempty W language_details enable_spellcheck
                _ Hlemmas) as [m [-> Hm]].
    rewrite bool_decide_eq_false_2 by done. cbn [fst].
    apply not_elem_of_app. split; [|apply spell_checking_messages].
    destruct remove_stopwords; cbn [app shown_before_line_99]; not_among.
  - unfold load_spacy_model. rewrite Hnlp. cbn. not_among.
Qed.
End Messages.

(** ** What the cleaner keeps *)

Section Cleaner.
Context `{Unicode}.

Lemma filter_all_space (w : str) :
  Forall isspace w → filter (λ c, isspace c = false) w = [].
Proof.
  induction 1 as [|c w Hc Hw IH]; [done|].
  rewrite filter_cons_False; [done|].
  apply Is_true_eq_true in Hc. by rewrite Hc.
Qed.

Lemma strip_keeps_words (s : str) :
  filter (λ c, isspace c = false) (strip s) = filter (λ c, isspace c = false) s.
Proof.
  destruct (lstrip_suffix s) as [v [Hv Hvs]].
  destruct (rstrip_prefix (lstrip s)) as [w [Hw Hws]].
  unfold strip.
  trans (filter (λ c, isspace c = false) (v ++ rstrip (lstrip s) ++ w)).
  - by rewrite !filter_app, (filter_all_space v), (filter_all_space w),
      app_nil_r by done.
  - by rewrite <-Hw, <-Hv.
Qed.

Lemma sub_whitespace_keeps_words (b : bool) (s : str) :
  filter (λ c, isspace c = false) (sub_whitespace_from b s)
  = filter (λ c, isspace c = false) s.
Proof.
  revert b. induction s as [|c s IH]; intros b; [done|].
  simpl. destruct (isspace c) eqn:Hc.
  - rewrite (filter_cons_False _ c) by (by rewrite Hc).
    destruct b; [apply IH|].
    rewrite filter_cons_False by done. apply IH.
  - rewrite !filter_cons_True by done. by rewrite IH.
Qed.

Lemma cleaned_text_not_space (raw_text : str) :
  filter (λ c, isspace c = false) (cleaned_text raw_text)
  = filter (λ c, isspace c = false ∧ kept c) raw_text.
Proof.
  unfold cleaned_text, sub_whitespace, sub_punctuation.
  by rewrite strip_keeps_words, sub_whitespace_keeps_words, list_filter_filter.
Qed.

(** The cleaner neither drops nor reorders nor adds a word character
    or a hyphen: those of the cleaned text are those of the raw text,
    in the same order. *)
Theorem cleaned_text_keeps_words (raw_text : str) :
  filter (λ c, isspace c = false) (cleaned_text raw_text)
  = filter (λ c, isspace c = false ∧ (is_word c = true ∨ c = 45)) raw_text.
Proof.
  rewrite cleaned_text_not_space.
  apply list_filter_iff. intros c. unfold kept.
  destruct (isspace c), (is_word c), (N.eqb_spec c 45); simpl;
    intuition (done || discriminate).
Qed.

Lemma collapsed_spaces (b : bool) (s : str) :
  collapsed_from b s = true →
  Forall (λ c, isspace c = true → c = 32) s
  ∧ (∀ (i : nat) c d, s !! i = Some c → s !! S i = Some d →
       isspace c = true → isspace d = false).
Proof.
  revert b. induction s as [|c s IH]; intros b; [done|].
  simpl. destruct (isspace c) eqn:Hc.
  - intros [[Hc32%N.eqb_eq _]%andb_prop Hs]%andb_prop.
    destruct (IH _ Hs) as [Hall Hnext]. split.
    + constructor; [done|done].
    + intros [|i] c' d; simpl; [|by apply Hnext].
      intros [= <-] Hd _. destruct s as [|d' s]; [done|].
      simpl in Hd, Hs. injection Hd as ->.
      destruct (isspace d); [|done]. by rewrite andb_false_r in Hs.
  - intros Hs. destruct (IH _ Hs) as [Hall Hnext]. split.
    + constructor; [by rewrite Hc|done].
    + intros [|i] c' d; simpl; [|by apply Hnext].
      intros [= <-] _. by rewrite Hc.
Qed.

(** The shape of a cleaned text: it has word characters, hyphens and
    the space U+0020 only, it does not start or end with a space, and
    it has no two spaces in a row. *)
Theorem cleaned_text_shape (raw_text : str) :
  let cleaned := cleaned_text raw_text in
  Forall (λ c, c = 32 ∨ (isspace c = false ∧ (is_word c = true ∨ c = 45))) cleaned
  ∧ (∀ c, head cleaned = Some c → c ≠ 32)
  ∧ (∀ c, last cleaned = Some c → c ≠ 32)
  ∧ (∀ (i : nat), cleaned !! i = Some 32 → cleaned !! S i ≠ Some 32).
Proof.
  intros cleaned.
  assert (Forall kept cleaned) as Hkept
    by apply kept_strip, kept_sub_whitespace, kept_sub_punctuation.
  assert (collapsed_from false cleaned = true) as Hcollapsed
    by apply collapsed_strip, collapsed_sub_whitespace.
  destruct (strip_trimmed (sub_whitespace (sub_punctuation raw_text)))
    as [Hhead Hlast]. fold (cleaned_text raw_text) in Hhead, Hlast.
  fold cleaned in Hhead, Hlast.
  destruct (collapsed_spaces _ _ Hcollapsed) as [Hspaces Hnext].
  split_and!.
  - rewrite Forall_forall in *. intros c Hc.
    specialize (Hkept c Hc). specialize (Hspaces c Hc).
    unfold kept in Hkept.
    destruct (isspace c); [by left; apply Hspaces|]. right. split; [done|].
    destruct (is_word c); [by left|]. simpl in Hkept.
    right. by apply N.eqb_eq, Is_true_eq_true.
  - intros c [t Ht]%head_Some ->. rewrite Ht in Hhead.
    by apply lstrip_head in Hhead.
  - intros c Hc ->. rewrite <-head_reverse in Hc.
    apply head_Some in Hc as [t Ht]. rewrite Ht in Hlast.
    by apply lstrip_head in Hlast.
  - intros i Hi Hi'. by specialize (Hnext i 32 32 Hi Hi' eq_refl).
Qed.

Lemma filter_nil_iff {A} (P : A → Prop) `{!∀ x, Decision (P x)} (l : list A) :
  filter P l = [] ↔ Forall (λ x, ¬ P x) l.
Proof.
  induction l as [|x l IH]; [done|].
  rewrite filter_cons, Forall_cons. case_decide as HP.
  - split; [done|]. by intros [? _].
  - rewrite IH. tauto.
Qed.

(** The cleaned text is empty exactly when every code point of the
    raw text is white space or punctuation other than the hyphen; the
    test of line 70 rules out only the texts that are all white
    space. *)
Theorem cleaned_text_empty_iff (raw_text : str) :
  cleaned_text raw_text = []
  ↔ Forall (λ c, isspace c = true ∨ (is_word c = false ∧ c ≠ 45)) raw_text.
Proof.
  pose proof (cleaned_text_not_space raw_text) as Hwords.
  assert (Forall (λ c, isspace c = true ∨ (is_word c = false ∧ c ≠ 45)) raw_text
          ↔ Forall (λ c, ¬ (isspace c = false ∧ kept c)) raw_text) as ->.
  { apply Forall_iff. intros c. unfold kept.
    destruct (isspace c), (is_word c), (N.eqb_spec c 45); simpl;
      intuition (done || discriminate). }
  rewrite <-filter_nil_iff, <-Hwords. split; [by intros ->|].
  intros Hspaces%filter_nil_iff.
  destruct (strip_trimmed (sub_whitespace (sub_punctuation raw_text)))
    as [Hhead _]. fold (cleaned_text raw_text) in Hhead.
  destruct (cleaned_text raw_text) as [|c cleaned]; [done|].
  apply lstrip_head in Hhead. by apply Forall_cons in Hspaces as [Hs _].
Qed.
End Cleaner.

(** ** What the two options do to the table *)

Lemma occurrences_filter (P : str → Prop) `{!∀ x, Decision (P x)}
    (word : str) (words : list str) :
  occurrences word (filter P words)
  = if decide (P word) then occurrences word words else 0%nat.
Proof.
  induction words as [|w words IH].
  - by case_decide.
  - rewrite filter_cons. destruct (decide (P w)) as [Hw|Hw].
    + rewrite !occurrences_cons, IH. case_decide; [done|].
      rewrite decide_False; [done|]. by intros ->.
    + rewrite occurrences_cons, IH. case_decide as Hword; [|done].
      rewrite decide_False; [done|]. by intros ->.
Qed.

Lemma frequency_table_filter (P : str → Prop) `{!∀ x, Decision (P x)}
    (words : list str) (row : str * nat) :
  row ∈ frequency_table (filter P words)
  ↔ row ∈ frequency_table words ∧ P row.1.
Proof.
  destruct row as [word n]. unfold frequency_table.
  rewrite !sort_values_Permutation, !Counter_items_row, occurrences_filter.
  simpl. case_decide; [tauto|]. split; [lia|tauto].
Qed.

Section Options.
Context `{Unicode}.
Variable W : World.
Implicit Types (language_details : LanguageDetails) (pdf_bytes : bytes).

(** Dictionary filtering only takes rows away: a row of the table
    with the filter on is a row, with the same count, of the table
    with the filter off. *)
Theorem spell_checking_only_removes_rows pdf_bytes language_details
    (remove_stopwords : bool) df_on df_off row :
  ending (extract_book_words W pdf_bytes language_details remove_stopwords true)
  = Next df_on →
  ending (extract_book_words W pdf_bytes language_details remove_stopwords false)
  = Next df_off →
  row ∈ df_on → row ∈ df_off.
Proof.
  intros (doc & nlp & m & Hdoc & _ & Hnlp & _ & Hm & _ & ->)%extract_book_words_table.
  intros (doc' & nlp' & m' & Hdoc' & _ & Hnlp' & _ & Hm' & _ & ->)%extract_book_words_table.
  rewrite Hdoc in Hdoc'. injection Hdoc' as <-.
  rewrite Hnlp in Hnlp'. injection Hnlp' as <-.
  cbn in Hm'. injection Hm' as <-.
  destruct (spell_checking_paths W language_details true
              (lemmas_at_line_99 nlp remove_stopwords (concat doc)))
    as [?|?|? ? ? ?|? ? ? ? ? ?|? ? ? ? ? ?];
    cbn in Hm; injection Hm as <-; try done.
  by intros [? _]%frequency_table_filter.
Qed.

(** Stopword removal takes away the rows of the stopwords and leaves
    every other row as it is. *)
Theorem stopword_removal_rows pdf_bytes language_details nlp df_on df_off row :
  spacy_load W (spacy language_details) = Some nlp →
  ending (extract_book_words W pdf_bytes language_details true false) = Next df_on →
  ending (extract_book_words W pdf_bytes language_details false false) = Next df_off →
  row ∈ df_on ↔ row ∈ df_off ∧ row.1 ∉ stop_words nlp.
Proof.
  intros Hnlp0.
  intros (doc & nlp1 & m & Hdoc & _ & Hnlp & _ & Hm & _ & ->)%extract_book_words_table.
  intros (doc' & nlp' & m' & Hdoc' & _ & Hnlp' & _ & Hm' & _ & ->)%extract_book_words_table.
  rewrite Hdoc in Hdoc'. injection Hdoc' as <-.
  rewrite Hnlp in Hnlp'. injection Hnlp' as <-.
  rewrite Hnlp in Hnlp0. injection Hnlp0 as ->.
  cbn in Hm, Hm'. injection Hm as <-. injection Hm' as <-.
  unfold lemmas_at_line_99. apply frequency_table_filter.
Qed.
End Options.

(** ** The name of the downloads *)

(** The base of a file name: the name itself when it has no dot, and
    otherwise the part before its last dot, so that base, dot and an
    extension without a dot make up the name. *)
Theorem rsplit_dot_0_spec (s : string) :
  if has_dot s
  then ∃ ext, s = rsplit_dot_0 s +:+ "." +:+ ext ∧ has_dot ext = false
  else rsplit_dot_0 s = s.
Proof.
  induction s as [|c s IH]; [done|]. simpl.
  destruct (has_dot s) eqn:Hs.
  - destruct IH as [ext [Hext Hno]]. rewrite orb_true_r.
    exists ext. split; [|done].
    change (String c s = String c (rsplit_dot_0 s +:+ "." +:+ ext)).
    by rewrite <-Hext.
  - rewrite orb_false_r. destruct (Ascii.eqb_spec c "."); [|done].
    subst c. exists s. by split.
Qed.

(** ** The page *)

Section Page.
Context `{Unicode}.
Variable W : World.
Implicit Types (language_details : LanguageDetails) (file : UploadedFile).

Lemma spell_checking_events language_details (enable_spellcheck : bool)
    (lemmas : list str) (ev : event) :
  ev ∈ shown (spell_checking W language_details enable_spellcheck lemmas) →
  ev = (Info, SKIPPING)
  ∨ ∃ code, ev = (Info, ATTEMPTING code)
            ∨ ev = (Warning, FILTERED_OUT_ALL code)
            ∨ ∃ e, ev = (Warning, COULD_NOT_APPLY code e).
Proof.
  destruct (spell_checking_paths W language_details enable_spellcheck lemmas)
    as [?|?|code e ? ? ?|code ? ? ? ? ?|code ? ? ? ? ?];
    unfold shown; cbn [fst]; rewrite ?elem_of_cons, elem_of_nil;
    intros Hev; destruct_or?; try done; subst ev; eauto 6.
Qed.

Lemma no_words_to_display_not_in_run pdf_bytes language_details
    (remove_stopwords enable_spellcheck : bool) :
  (Info, NO_WORDS_TO_DISPLAY)
  ∉ shown (extract_book_words W pdf_bytes language_details
             remove_stopwords enable_spellcheck).
Proof.
  rewrite extract_book_words_branches. unfold shown at 1.
  destruct (fitz_open W pdf_bytes) as [e|doc]; [cbn [fst]; not_among|].
  case_bool_decide as Htext; [cbn [fst]; not_among|].
  destruct (spacy_load W (spacy language_details)) as [nlp|] eqn:Hnlp.
  - cbn zeta. case_bool_decide as Hlemmas.
    { destruct remove_stopwords; cbn [fst app shown_before_line_99]; not_among. }
    destruct (spell_checking_nonempty W language_details enable_spellcheck
                _ Hlemmas) as [m [-> Hm]].
    rewrite bool_decide_eq_false_2 by done. cbn [fst].
    apply not_elem_of_app. split.
    + destruct remove_stopwords; cbn [app shown_before_line_99]; not_among.
    + intros [Hev|[code [Hev|[Hev|[e Hev]]]]]%spell_checking_events;
        discriminate.
  - unfold load_spacy_model. rewrite Hnlp. cbn. not_among.
Qed.

(** The page never says that the analysis found no words to display:
    the test of line 256 asks for a table without rows, and a run
    never returns one. *)
Theorem no_words_to_display_never_shown (uploaded_file : option UploadedFile)
    language_details (remove_stopwords_option enable_spellcheck_option : bool) :
  Shown (Info, NO_WORDS_TO_DISPLAY)
  ∉ analyze_pdf W uploaded_file language_details
      remove_stopwords_option enable_spellcheck_option.
Proof.
  destruct uploaded_file as [file|]; [|cbn; not_among].
  unfold analyze_pdf. cbn zeta. apply not_elem_of_app. split.
  - intros (ev & [= <-] & Hev)%list_elem_of_fmap.
    by apply no_words_to_display_not_in_run in Hev.
  - destruct (ending _) as [df| |] eqn:Hrun; [|apply not_elem_of_nil..].
    apply extract_book_words_table
      in Hrun as (doc & nlp & m & _ & _ & _ & _ & _ & Hm & ->).
    rewrite bool_decide_eq_true_2 by by apply frequency_table_nonempty.
    not_among.
Qed.

(** When the run returns a table, the page shows the events of the
    run, the success message, the first 200 rows and the two
    downloads. The downloads are made of the whole table and are named
    after the base of the file name; a row that is displayed has a
    count at least as large as that of any row that is not. *)
Theorem page_of_a_table file language_details
    (remove_stopwords_option enable_spellcheck_option : bool) df :
  let run := extract_book_words W (getvalue file) language_details
               remove_stopwords_option enable_spellcheck_option in
  ending run = Next df →
  analyze_pdf W (Some file) language_details
    remove_stopwords_option enable_spellcheck_option
  = (Shown <$> shown run)
    ++ [Success "Word analysis complete!";
        Dataframe (take 200 df);
        DownloadButton "Download Results as Excel"
          (to_excel df "WordAnalysis")
          (rsplit_dot_0 (name file) +:+ "_words.xlsx")
          "application/vnd.openxmlformats-officedocument.spreadsheetml.sheet";
        DownloadButton "Download Results as CSV"
          (to_csv df)
          (rsplit_dot_0 (name file) +:+ "_words.csv")
          "text/csv"]
  ∧ (length (take 200 df) ≤ 200)%nat
  ∧ (∀ row1 row2, row1 ∈ take 200 df → row2 ∈ drop 200 df →
       (row1.2 ≥ row2.2)%nat).
Proof.
  intros run Hrun.
  pose proof Hrun as (doc & nlp & m & _ & _ & _ & _ & _ & Hm & Hdf)%extract_book_words_table.
  split_and!.
  - unfold analyze_pdf. cbn zeta. fold run. rewrite Hrun, Hdf.
    by rewrite bool_decide_eq_true_2 by by apply frequency_table_nonempty.
  - rewrite length_take. lia.
  - intros row1 row2 [i Hi]%list_elem_of_lookup [j Hj]%list_elem_of_lookup.
    apply lookup_take_Some in Hi as [Hi Hlt].
    rewrite lookup_drop in Hj.
    eapply (StronglySorted_rows df i (200 + j)); [|lia|done..].
    rewrite Hdf. apply Sorted_StronglySorted, sort_values_Sorted. apply _.
Qed.
End Page.

(** ** The added properties at concrete runs *)

Lemma frequency_table_Permutation_witness :
  frequency_table [text "cat"; text "sit"; text "cat"]
  ≡ₚ frequency_table [text "sit"; text "cat"; text "cat"].
Proof.
  refine (frequency_table_Permutation
            [text "cat"; text "sit"; text "cat"]
            [text "sit"; text "cat"; text "cat"] _).
  compute_done.
Defined.

Lemma rows_ordered_by_count_witness :
  ((text "cat", 2%nat).2 ≥ (text "run", 1%nat).2)%nat.
Proof.
  refine (@rows_ordered_by_count sample_unicode world_cat [] English true false
            cat_table 0%nat 3%nat (text "cat", 2%nat) (text "run", 1%nat) _ _ _ _);
    compute_done.
Defined.

Lemma returned_table_has_rows_witness :
  cat_table ≠ [] ∧ Forall (λ row, 1 ≤ row.2)%nat cat_table.
Proof.
  refine (@returned_table_has_rows sample_unicode world_cat [] English true false
            cat_table _).
  compute_done.
Defined.

Lemma table_total_at_most_tokens_witness :
  ∃ doc nlp,
    fitz_open world_cat [] = inr doc
    ∧ spacy_load world_cat (spacy English) = Some nlp
    ∧ (sum_list cat_table.*2
       ≤ length (nlp_call nlp (@cleaned_text sample_unicode (concat doc))))%nat.
Proof.
  refine (@table_total_at_most_tokens sample_unicode world_cat [] English true false
            cat_table _).
  compute_done.
Defined.

Lemma spell_checking_only_removes_rows_witness :
  (text "cat", 2%nat) ∈ cat_table.
Proof.
  refine (@spell_checking_only_removes_rows sample_unicode world_cat_dictionary []
            English true [(text "cat", 2%nat)] cat_table (text "cat", 2%nat) _ _ _);
    compute_done.
Defined.

Lemma stopword_removal_rows_witness :
  (text "cat", 2%nat) ∈ cat_table
  ↔ (text "cat", 2%nat) ∈ cat_table_with_stopwords
    ∧ (text "cat", 2%nat).1 ∉ stop_words toy_nlp.
Proof.
  refine (@stopword_removal_rows sample_unicode world_cat [] English toy_nlp
            cat_table cat_table_with_stopwords (text "cat", 2%nat) _ _ _);
    compute_done.
Defined.

Lemma page_of_a_table_witness :
  @analyze_pdf sample_unicode world_cat (Some book_pdf) English true false
  = (Shown <$> shown (@extract_book_words sample_unicode world_cat
                        (getvalue book_pdf) English true false))
    ++ [Success "Word analysis complete!";
        Dataframe (take 200 cat_table);
        DownloadButton "Download Results as Excel"
          (to_excel cat_table "WordAnalysis")
          (rsplit_dot_0 (name book_pdf) +:+ "_words.xlsx")
          "application/vnd.openxmlformats-officedocument.spreadsheetml.sheet";
        DownloadButton "Download Results as CSV"
          (to_csv cat_table)
          (rsplit_dot_0 (name book_pdf) +:+ "_words.csv")
          "text/csv"]
  ∧ (length (take 200 cat_table) ≤ 200)%nat
  ∧ (∀ row1 row2, row1 ∈ take 200 cat_table → row2 ∈ drop 200 cat_table →
       (row1.2 ≥ row2.2)%nat).
Proof.
  refine (@page_of_a_table sample_unicode world_cat book_pdf English true false
            cat_table _).
  compute_done.
Defined.

Lemma table_keys_come_from_tokens_witness :
  ∃ doc nlp token,
    fitz_open world_cat [] = inr doc
    ∧ spacy_load world_cat (spacy English) = Some nlp
    ∧ token ∈ nlp_call nlp (@cleaned_text sample_unicode (concat doc))
    ∧ is_alpha token = true
    ∧ (1 < length (lemma_ token))%nat
    ∧ text "cat" = @lower sample_unicode (lemma_ token)
    ∧ (true = true → text "cat" ∉ stop_words nlp)
    ∧ (∀ code dictionary_words,
         false = true →
         truthy_code (spellchecker English) = Some code →
         dictionary_lookup world_cat code
           (@lemmas_at_line_99 sample_unicode nlp true (concat doc))
         = inr dictionary_words →
         filter (λ lemma, lemma ∈ dictionary_words)
           (@lemmas_at_line_99 sample_unicode nlp true (concat doc)) ≠ [] →
         text "cat" ∈ dictionary_words).
Proof.
  refine (@table_keys_come_from_tokens sample_unicode world_cat [] English true false
            cat_table (text "cat") _ _);
    compute_done.
Defined.
